(** * Verification of the chromedriver DevTools log replay reader and of the
    synchronous WebSocket wrapper.

    The development follows two source files:
    - [log_replay/devtools_log_reader.cc]: [LogEntry::LogEntry],
      [DevToolsLogReader::IsHeader], [GetNext], [GetJSONString], [CountChar];
    - [net/sync_websocket_impl.cc]: [SyncWebSocketImpl::Core] and its
      [Connect], [ConnectOnIO], [OnConnectCompletedOnIO],
      [ReceiveNextMessage], [HasNextMessage], [OnMessageReceived], [OnClose].

    The C++ streams are embedded with the state they carry (remaining
    characters, eofbit, failbit) and the standard library's extraction rules;
    exceptions are an explicit result type. *)

From Stdlib Require Import String Ascii List ZArith Bool Lia.
Import ListNotations.

Open Scope Z_scope.

(* ------------------------------------------------------------------ *)
(** * Part 1: the log replay reader *)

Module LogReplay.

Local Open Scope string_scope.

(** ** Characters *)

Definition dquote : ascii := "034"%char.
Definition backslash : ascii := "092"%char.
Definition newline : ascii := "010"%char.

(** [isspace] in the "C" locale. *)
Definition is_space (c : ascii) : bool :=
  match nat_of_ascii c with
  | 32%nat | 9%nat | 10%nat | 11%nat | 12%nat | 13%nat => true
  | _ => false
  end.

(** Writing helper: a string literal in which every ['] stands for a double
    quote, so that JSON text can be written without escaping. *)
Fixpoint dq (s : string) : string :=
  match s with
  | EmptyString => EmptyString
  | String c s' => String (if Ascii.eqb c "'"%char then dquote else c) (dq s')
  end.

(** ** [std::istringstream] *)

Record istringstream := mk_iss {
  iss_buf : string;   (* characters not yet extracted *)
  iss_eof : bool;     (* eofbit *)
  iss_fail : bool     (* failbit *)
}.

Definition iss_of (s : string) : istringstream := mk_iss s false false.

Definition iss_good (st : istringstream) : bool :=
  negb (iss_eof st) && negb (iss_fail st).

Definition set_fail (st : istringstream) : istringstream :=
  mk_iss (iss_buf st) (iss_eof st) true.

Fixpoint skip_ws (s : string) : string :=
  match s with
  | EmptyString => EmptyString
  | String c s' => if is_space c then skip_ws s' else s
  end.

Fixpoint split_word (s : string) : string * string :=
  match s with
  | EmptyString => (EmptyString, EmptyString)
  | String c s' =>
      if is_space c then (EmptyString, s)
      else let (w, r) := split_word s' in (String c w, r)
  end.

Definition is_empty (s : string) : bool :=
  match s with EmptyString => true | _ => false end.

(** [stream >> str]: the sentry skips white space (eofbit and failbit when
    it runs out); the word then extends to the next white space or to the end
    (eofbit).  When the sentry fails the target string keeps its value
    [old]. *)
Definition read_string (st : istringstream) (old : string)
  : string * istringstream :=
  if iss_good st then
    match skip_ws (iss_buf st) with
    | EmptyString => (old, mk_iss EmptyString true true)
    | b => let (w, r) := split_word b in (w, mk_iss r (is_empty r) false)
    end
  else (old, set_fail st).

Fixpoint drop_n (n : nat) (s : string) : string * bool :=
  match n, s with
  | O, _ => (s, false)
  | S _, EmptyString => (EmptyString, true)
  | S n', String _ s' => drop_n n' s'
  end.

(** [stream.ignore(n)]: unformatted, no white space skipping; eofbit when the
    input ends before [n] characters were extracted. *)
Definition ignore (n : nat) (st : istringstream) : istringstream :=
  if iss_good st then
    let (r, e) := drop_n n (iss_buf st) in mk_iss r e false
  else set_fail st.

Definition is_digit (c : ascii) : bool :=
  (48 <=? nat_of_ascii c)%nat && (nat_of_ascii c <=? 57)%nat.

Fixpoint span_digits (s : string) : string * string :=
  match s with
  | EmptyString => (EmptyString, EmptyString)
  | String c s' =>
      if is_digit c then let (d, r) := span_digits s' in (String c d, r)
      else (EmptyString, s)
  end.

Fixpoint digits_value (acc : Z) (s : string) : Z :=
  match s with
  | EmptyString => acc
  | String c s' => digits_value (acc * 10 + (Z.of_nat (nat_of_ascii c) - 48)) s'
  end.

Definition INT_MIN : Z := -2147483648.
Definition INT_MAX : Z := 2147483647.

(** [stream >> n] for an [int]: optional sign and decimal digits; no digit
    stores 0 and sets failbit; a value out of the [int] range is clamped and
    sets failbit; when the sentry fails [n] keeps its value [old]. *)
Definition read_int (st : istringstream) (old : Z) : Z * istringstream :=
  if iss_good st then
    match skip_ws (iss_buf st) with
    | EmptyString => (old, mk_iss EmptyString true true)
    | b =>
        let '(sign, b1) :=
          match b with
          | String "-"%char r => (-1, r)
          | String "+"%char r => (1, r)
          | _ => (1, b)
          end in
        let (ds, r) := span_digits b1 in
        if is_empty ds then (0, mk_iss r (is_empty r) true)
        else
          let v := sign * digits_value 0 ds in
          if (v <? INT_MIN)%Z then (INT_MIN, mk_iss r (is_empty r) true)
          else if (INT_MAX <? v)%Z then (INT_MAX, mk_iss r (is_empty r) true)
          else (v, mk_iss r (is_empty r) false)
    end
  else (old, set_fail st).

Fixpoint split_line (s : string) : string * option string :=
  match s with
  | EmptyString => (EmptyString, None)
  | String c s' =>
      if Ascii.eqb c newline then (EmptyString, Some s')
      else let (l, r) := split_line s' in (String c l, r)
  end.

(** [std::getline(stream, str)] on a string stream. *)
Definition getline_iss (st : istringstream) (old : string)
  : string * istringstream :=
  if iss_good st then
    match split_line (iss_buf st) with
    | (l, Some r) => (l, mk_iss r false false)
    | (l, None) => (l, mk_iss EmptyString true (is_empty l))
    end
  else (old, set_fail st).

(** ** The log file, [std::ifstream]

    The file content [l1 \n l2 \n ... ln \n last] is kept as the lines still
    terminated by a newline and the unterminated tail [last] (empty when the
    file ends in a newline).  [getline] returns the next terminated line, or
    the tail and sets eofbit. *)

Record ifstream := mk_ifs {
  ifs_lines : list string;
  ifs_last : string;
  ifs_eof : bool
}.

Fixpoint lines_of (s : string) : list string * string :=
  match s with
  | EmptyString => ([], EmptyString)
  | String c s' =>
      let (ls, last) := lines_of s' in
      if Ascii.eqb c newline then (EmptyString :: ls, last)
      else match ls with
           | l :: ls' => (String c l :: ls', last)
           | [] => ([], String c last)
           end
  end.

(** A file opened for reading. *)
Definition ifstream_of (content : string) : ifstream :=
  let (ls, last) := lines_of content in mk_ifs ls last false.

(** [std::getline(log_file, str)]. *)
Definition getline_file (fs : ifstream) (old : string) : string * ifstream :=
  if ifs_eof fs then (old, fs)
  else match ifs_lines fs with
       | l :: ls => (l, mk_ifs ls (ifs_last fs) false)
       | [] => (ifs_last fs, mk_ifs [] EmptyString true)
       end.

(** ** [base::MatchPattern]

    The matcher of Chromium's base library (outside this repository), after
    its documented contract: [?] matches zero or one character, [*] zero or
    more, a backslash escapes the next pattern character, every other
    character matches itself.  Characters are bytes here; Chromium's matcher
    steps over UTF-8 code points, which differs only on non-ASCII input. *)
Fixpoint MatchPattern (s p : string) : bool :=
  let literal c p' :=
    match s with
    | String c' s' => Ascii.eqb c c' && MatchPattern s' p'
    | EmptyString => false
    end in
  match p with
  | EmptyString => is_empty s
  | String "?"%char p' =>
      MatchPattern s p' ||
      match s with String _ s' => MatchPattern s' p' | EmptyString => false end
  | String "*"%char p' =>
      (fix star (t : string) : bool :=
         MatchPattern t p' ||
         match t with String _ t' => star t' | EmptyString => false end) s
  | String "092"%char (String c p'') => literal c p''
  | String c p' => literal c p'
  end.

(** ** The log entry *)

Inductive Protocol := HTTP | WebSocket.
Inductive EventType := request | response | event.

Definition protocol_eqb (a b : Protocol) : bool :=
  match a, b with
  | HTTP, HTTP | WebSocket, WebSocket => true
  | _, _ => false
  end.

Definition event_eqb (a b : EventType) : bool :=
  match a, b with
  | request, request | response, response | event, event => true
  | _, _ => false
  end.

Record LogEntry := mkLogEntry {
  protocol_type : Protocol;
  event_type : EventType;
  command_name : string;
  id : Z;
  payload : string;
  error : bool
}.

(** Modelled from the spec: the member initialisers of [LogEntry] (its
    declaration, [devtools_log_reader.h], is not among the sources).  The spec
    gives [id = 0] for entries without an id and an empty payload before
    extraction; [command_name] is a [std::string], hence empty.  The
    protocol and event fields are only read when [error] is false, after the
    constructor assigned them; their initial values here are placeholders. *)
Definition entry_init : LogEntry :=
  mkLogEntry HTTP request EmptyString 0 EmptyString false.

Definition set_protocol (e : LogEntry) (p : Protocol) : LogEntry :=
  mkLogEntry p (event_type e) (command_name e) (id e) (payload e) (error e).
Definition set_event (e : LogEntry) (t : EventType) : LogEntry :=
  mkLogEntry (protocol_type e) t (command_name e) (id e) (payload e) (error e).
Definition set_command (e : LogEntry) (c : string) : LogEntry :=
  mkLogEntry (protocol_type e) (event_type e) c (id e) (payload e) (error e).
Definition set_id (e : LogEntry) (i : Z) : LogEntry :=
  mkLogEntry (protocol_type e) (event_type e) (command_name e) i (payload e) (error e).
Definition set_payload (e : LogEntry) (s : string) : LogEntry :=
  mkLogEntry (protocol_type e) (event_type e) (command_name e) (id e) s (error e).
Definition set_error (e : LogEntry) (b : bool) : LogEntry :=
  mkLogEntry (protocol_type e) (event_type e) (command_name e) (id e) (payload e) b.

(** [GetId]: skip [" (id="], read an [int], skip the closing parenthesis. *)
Definition GetId (hs : istringstream) : Z * istringstream :=
  let hs1 := ignore 5 hs in
  let (i, hs2) := read_int hs1 0 in
  (i, ignore 1 hs2).

Definition protocol_of_string (s : string) : option Protocol :=
  if String.eqb s "HTTP" then Some HTTP
  else if String.eqb s "WebSocket" then Some WebSocket
  else None.

Definition event_of_string (s : string) : option EventType :=
  if String.eqb s "Response:" then Some response
  else if String.eqb s "Command:" || String.eqb s "Request:" then Some request
  else if String.eqb s "Event:" then Some event
  else None.

(** [LogEntry::LogEntry(header_stream)]: the constructed entry and the
    header stream after it. *)
Definition LogEntry_of_header (hs : istringstream) : LogEntry * istringstream :=
  let e0 := entry_init in
  let (protocol_type_string, hs1) := read_string hs EmptyString in
  match protocol_of_string protocol_type_string with
  | None => (set_error e0 true, hs1)
  | Some p =>
      let e1 := set_protocol e0 p in
      let (event_type_string, hs2) := read_string hs1 EmptyString in
      match event_of_string event_type_string with
      | None => (set_error e1 true, hs2)
      | Some t =>
          let e2 := set_event e1 t in
          if protocol_eqb p HTTP && event_eqb t response then (e2, hs2)
          else
            let (cmd, hs3) := read_string hs2 (command_name e2) in
            let e3 := set_command e2 cmd in
            if String.eqb cmd EmptyString then (set_error e3 true, hs3)
            else if negb (protocol_eqb p HTTP) then
              let (i, hs4) := GetId hs3 in
              let e4 := set_id e3 i in
              if (i =? 0)%Z then (set_error e4 true, hs4) else (e4, hs4)
            else (e3, hs3)
      end
  end.

(** [DevToolsLogReader::IsHeader]. *)
Definition header_pattern : string := "[??????????.???][DEBUG]:".

Definition IsHeader (hs : istringstream) : bool * istringstream :=
  let (word, hs1) := read_string hs EmptyString in
  if negb (MatchPattern word header_pattern) then (false, hs1)
  else
    let (word2, hs2) := read_string hs1 word in
    (String.eqb word2 "DevTools", hs2).

(** ** [CountChar]

    The loop over [line[i]]; [prev] is [line[i-1]], [None] when [i == 0]. *)
Fixpoint count_char_from (prev : option ascii) (in_quote : bool)
    (opening_char closing_char : ascii) (line : string) : Z :=
  match line with
  | EmptyString => 0
  | String c rest =>
      let inc := if negb in_quote && Ascii.eqb c opening_char then 1 else 0 in
      let dec := if negb in_quote && Ascii.eqb c closing_char then 1 else 0 in
      let escaped := match prev with
                     | None => false
                     | Some p => Ascii.eqb p backslash
                     end in
      let in_quote' :=
        if Ascii.eqb c dquote && negb escaped then negb in_quote else in_quote in
      (inc - dec + count_char_from (Some c) in_quote' opening_char closing_char rest)%Z
  end.

Definition CountChar (line : string) (opening_char closing_char : ascii) : Z :=
  count_char_from None false opening_char closing_char line.

(** ** [GetJSONString] *)

Inductive exn := out_of_range.

Inductive res (A : Type) : Type :=
| Ret (a : A)
| Throw (e : exn).
Arguments Ret {A} a.
Arguments Throw {A} e.

Fixpoint str_drop (n : nat) (s : string) : string :=
  match n, s with
  | O, _ => s
  | S _, EmptyString => EmptyString
  | S n', String _ s' => str_drop n' s'
  end.

(** [s.substr(pos)]: [std::out_of_range] when [pos > s.size()]. *)
Definition substr (s : string) (pos : nat) : res string :=
  if (String.length s <? pos)%nat then Throw out_of_range
  else Ret (str_drop pos s).

Definition closing_of (c : ascii) : option ascii :=
  if Ascii.eqb c "{"%char then Some "}"%char
  else if Ascii.eqb c "["%char then Some "]"%char
  else None.

(** The [while (true)] loop of [GetJSONString] after its first line, which
    left [count <> 0] and the log file not at its end: read the next line,
    append it, count it, stop at zero, fail with [""] at end of file. *)
Fixpoint json_more (o c : ascii) (count : Z) (json : string)
    (ls : list string) (last : string) : string * ifstream :=
  match ls with
  | l :: ls' =>
      let json' := json ++ l in
      let count' := (count + CountChar l o c)%Z in
      if (count' =? 0)%Z then (json', mk_ifs ls' last false)
      else json_more o c count' json' ls' last
  | [] =>
      let json' := json ++ last in
      let count' := (count + CountChar last o c)%Z in
      if (count' =? 0)%Z then (json', mk_ifs [] EmptyString true)
      else (EmptyString, mk_ifs [] EmptyString true)
  end.

Definition GetJSONString (hs : istringstream) (fs : ifstream)
  : res (string * ifstream) :=
  let (next_line0, _) := getline_iss hs EmptyString in
  match substr next_line0 1 with
  | Throw e => Throw e
  | Ret next_line =>
      match next_line with
      | EmptyString => Ret (EmptyString, fs)  (* next_line[0] == '\0' *)
      | String opening_char _ =>
          match closing_of opening_char with
          | None => Ret (EmptyString, fs)
          | Some closing_char =>
              let count := CountChar next_line opening_char closing_char in
              if (count =? 0)%Z then Ret (next_line, fs)
              else if ifs_eof fs then Ret (EmptyString, fs)
              else Ret (json_more opening_char closing_char count next_line
                          (ifs_lines fs) (ifs_last fs))
          end
      end
  end.

(** ** [GetNext]

    One iteration of the loop on a line already read by [getline]: [None]
    continues the loop, [Some r] returns [r]. *)
Definition process_line (p : Protocol) (next_line : string) (fs : ifstream)
  : option (res (option LogEntry * ifstream)) :=
  let (is_header, hs1) := IsHeader (iss_of next_line) in
  if negb is_header then None
  else
    let (log_entry, hs2) := LogEntry_of_header hs1 in
    if error log_entry then Some (Ret (None, fs))
    else if negb (protocol_eqb (protocol_type log_entry) p) then None
    else if negb (event_eqb (event_type log_entry) request &&
                  protocol_eqb (protocol_type log_entry) HTTP) then
      match GetJSONString hs2 fs with
      | Throw e => Some (Throw e)
      | Ret (pl, fs') =>
          if String.eqb pl EmptyString then Some (Ret (None, fs'))
          else Some (Ret (Some (set_payload log_entry pl), fs'))
      end
    else Some (Ret (Some log_entry, fs)).

(** The loop of [GetNext] over the remaining lines of a file not at its end:
    each iteration reads one line; after the unterminated tail the file is at
    its end and the next iteration returns null. *)
Fixpoint get_next_from (p : Protocol) (ls : list string) (last : string)
  : res (option LogEntry * ifstream) :=
  match ls with
  | l :: ls' =>
      match process_line p l (mk_ifs ls' last false) with
      | Some r => r
      | None => get_next_from p ls' last
      end
  | [] =>
      let fs1 := mk_ifs [] EmptyString true in
      match process_line p last fs1 with
      | Some r => r
      | None => Ret (None, fs1)
      end
  end.

Definition GetNext (p : Protocol) (fs : ifstream)
  : res (option LogEntry * ifstream) :=
  if ifs_eof fs then Ret (None, fs)
  else get_next_from p (ifs_lines fs) (ifs_last fs).

End LogReplay.

(** * [src/net/sync_websocket_impl.cc]: the synchronous WebSocket core *)
Module SyncWebSocket.

(** ** Memory of the caller's stack frame

    [Connect] passes the addresses of its locals [success] and [event] to
    the tasks it posts; they are freed when [Connect] returns.  An access to
    a freed address is a use after free. *)
Definition addr := nat.

Inductive cell :=
| CBool (b : bool)           (* bool success *)
| CEvent (signaled : bool).  (* base::WaitableEvent, AUTOMATIC reset *)

Definition heap := addr -> option cell.

Definition heap_upd (h : heap) (a : addr) (v : option cell) : heap :=
  fun a' => if Nat.eqb a' a then v else h a'.

Inductive outcome (A : Type) :=
| Done (x : A)
| UseAfterFree (a : addr).
Arguments Done {A} x.
Arguments UseAfterFree {A} a.

(** [*success = b] *)
Definition store_bool (h : heap) (a : addr) (b : bool) : outcome heap :=
  match h a with
  | Some (CBool _) => Done (heap_upd h a (Some (CBool b)))
  | _ => UseAfterFree a
  end.

(** [event->Signal()] *)
Definition Signal (h : heap) (a : addr) : outcome heap :=
  match h a with
  | Some (CEvent _) => Done (heap_upd h a (Some (CEvent true)))
  | _ => UseAfterFree a
  end.

(** ** [SyncWebSocketImpl::Core]

    The socket keeps the callback bound in [socket_->Connect(...)] with the
    [success] and [event] pointers until its connection completes. *)
Record WebSocket := mkWebSocket { on_connect : option (addr * addr) }.

Record Core := mkCore {
  received_queue : list string;
  is_connected : bool;
  socket : option WebSocket   (* socket_, None for nullptr *)
}.

Inductive StatusCode := kOk | kTimeout | kDisconnected.

Definition set_queue (q : list string) (c : Core) : Core :=
  mkCore q (is_connected c) (socket c).
Definition set_connected (b : bool) (c : Core) : Core :=
  mkCore (received_queue c) b (socket c).
Definition set_socket (w : option WebSocket) (c : Core) : Core :=
  mkCore (received_queue c) (is_connected c) w.

Definition HasNextMessage (c : Core) : bool :=
  match received_queue c with [] => false | _ :: _ => true end.

Definition OnMessageReceived (message : string) (c : Core) : Core :=
  set_queue (received_queue c ++ [message]) c.

Definition OnClose (c : Core) : Core := set_connected false c.

(** [Core::ConnectOnIO(url, success, event)]: it never dereferences
    [success] or [event] itself; the new socket keeps them for
    [OnConnectCompletedOnIO]. *)
Definition ConnectOnIO (success event : addr) (c : Core) : Core :=
  let c := set_queue [] c in
  match socket c with
  | Some _ => if is_connected c then c
              else set_socket (Some (mkWebSocket (Some (success, event)))) c
  | None => set_socket (Some (mkWebSocket (Some (success, event)))) c
  end.

(** [Core::OnConnectCompletedOnIO(success, event, error)], with
    [ok] standing for [error == net::OK]. *)
Definition OnConnectCompletedOnIO (success event : addr) (ok : bool)
    (c : Core) (h : heap) : outcome (Core * heap) :=
  match store_bool h success ok with
  | UseAfterFree a => UseAfterFree a
  | Done h1 =>
      let c1 := if ok then set_connected true c else c in
      match Signal h1 event with
      | UseAfterFree a => UseAfterFree a
      | Done h2 => Done (c1, h2)
      end
  end.

(** [Core::Core(context_getter)]: not connected, an empty queue, and
    [socket_] a null [std::unique_ptr]. *)
Definition Core_init : Core := mkCore [] false None.

(** [Core::SendOnIO(message, success, event)]: [*success =
    socket_->Send(message); event->Signal();].  [WebSocket::Send] is not
    part of these sources; [ws_send] is its result.  [None] is the call on
    a null [socket_]. *)
Definition SendOnIO (ws_send : WebSocket -> string -> bool) (message : string)
    (success event : addr) (c : Core) (h : heap) : option (outcome heap) :=
  match socket c with
  | None => None
  | Some w =>
      Some (match store_bool h success (ws_send w message) with
            | UseAfterFree a => UseAfterFree a
            | Done h1 => Signal h1 event
            end)
  end.

(** [Core::Send(message)]: the locals [success = false] and [event] at
    [success] and [event], the posted [SendOnIO] run on the core [c] the I/O
    thread has when it runs, the untimed [event.Wait()], then [return
    success;]. *)
Definition Send (ws_send : WebSocket -> string -> bool) (message : string)
    (success event : addr) (c : Core) (h : heap) : option (outcome bool) :=
  let h0 := heap_upd (heap_upd h success (Some (CBool false))) event
                     (Some (CEvent false)) in
  match SendOnIO ws_send message success event c h0 with
  | None => None
  | Some (UseAfterFree a) => Some (UseAfterFree a)
  | Some (Done h1) =>
      match h1 success with
      | Some (CBool b) => Some (Done b)
      | _ => Some (UseAfterFree success)
      end
  end.

(** ** [Core::ReceiveNextMessage]

    Modelled from the spec: [Timeout] (not part of this source) is an
    absolute deadline, and [GetRemainingTime] is the deadline minus the
    current time. *)
Record Timeout := mkTimeout { deadline : Z }.

Definition GetRemainingTime (t : Timeout) (now : Z) : Z := deadline t - now.

(** What the I/O thread does while [on_update_event_.TimedWait] has released
    [lock_], and the time that passes until the waiter holds the lock
    again (a signal, the timeout or a spurious wakeup). *)
Inductive io_event := EvMessage (m : string) | EvClose.

Definition apply_event (e : io_event) (c : Core) : Core :=
  match e with
  | EvMessage m => OnMessageReceived m c
  | EvClose => OnClose c
  end.

Definition apply_events (es : list io_event) (c : Core) : Core :=
  fold_left (fun c e => apply_event e c) es c.

Record wake := mkWake { wake_events : list io_event; wake_elapsed : Z }.

(** The call with the wakes it goes through; [None] when it is still
    waiting after the last of them. *)
Fixpoint ReceiveNextMessage (t : Timeout) (ws : list wake) (now : Z)
    (message : string) (c : Core) : option (StatusCode * string * Core) :=
  if negb (HasNextMessage c) && is_connected c then
    let next_wait := GetRemainingTime t now in
    if next_wait <=? 0 then Some (kTimeout, message, c)
    else match ws with
         | [] => None
         | w :: ws' =>
             ReceiveNextMessage t ws' (now + wake_elapsed w) message
               (apply_events (wake_events w) c)
         end
  else if negb (is_connected c) then Some (kDisconnected, message, c)
  else match received_queue c with
       | m :: q => Some (kOk, m, set_queue q c)
       | [] => Some (kDisconnected, message, c)  (* not reached *)
       end.

(** ** [Core::Connect] running against the I/O thread

    The caller runs
    [for (i = 0; i < 3; i++) { PostTask(ConnectOnIO(&success, &event));
    if (event.TimedWait(10 s)) break; } return success;].  Caller and I/O
    thread interleave; the scheduler picks who moves; once a socket exists
    it may deliver a message or report a close at any time.  A wait times
    out only if the event is not signaled, and a wait on a signaled event returns at
    once and resets it.  [posted] and [completions] are ghost fields: the
    number of tasks posted so far and the results of the connections
    completed so far. *)
Inductive caller_pc :=
| CPost (i : nat)   (* top of iteration i of the loop *)
| CWait (i : nat)   (* blocked in event.TimedWait *)
| CReturn           (* return success; *)
| CDone (b : bool). (* returned b; the frame is freed *)

Record sys := mkSys {
  pc : caller_pc;
  core : Core;
  tasks : list (addr * addr);   (* ConnectOnIO tasks posted, not yet run *)
  mem : heap;
  locals : addr * addr;         (* &success, &event *)
  posted : nat;
  completions : list bool;
  faulted : option addr         (* first use after free on the I/O thread *)
}.

Definition connect_init (c : Core) (h : heap) (success event : addr) : sys :=
  mkSys (CPost 0) c [] h (success, event) 0 [] None.

Inductive action :=
| Caller                      (* the caller thread moves *)
| CallerTimeout               (* TimedWait(10 s) expires *)
| IOTask                      (* the I/O thread runs the next posted task *)
| IOConnectDone (ok : bool)   (* the socket's connection completes *)
| IOMessage (m : string)      (* the socket calls OnMessageReceived(m) *)
| IOClose.                    (* the socket calls OnClose() *)

Definition set_pc (p : caller_pc) (s : sys) : sys :=
  mkSys p (core s) (tasks s) (mem s) (locals s) (posted s) (completions s) (faulted s).

Definition free_locals (s : sys) : heap :=
  heap_upd (heap_upd (mem s) (fst (locals s)) None) (snd (locals s)) None.

Definition step (a : action) (s : sys) : option sys :=
  let (success, event) := locals s in
  match a with
  | Caller =>
      match pc s with
      | CPost i =>
          if Nat.ltb i 3 then
            Some (mkSys (CWait i) (core s) (tasks s ++ [(success, event)])
                    (mem s) (locals s) (S (posted s)) (completions s) (faulted s))
          else Some (set_pc CReturn s)
      | CWait i =>
          match mem s event with
          | Some (CEvent true) =>
              Some (mkSys CReturn (core s) (tasks s)
                      (heap_upd (mem s) event (Some (CEvent false)))
                      (locals s) (posted s) (completions s) (faulted s))
          | _ => None
          end
      | CReturn =>
          match mem s success with
          | Some (CBool b) =>
              Some (mkSys (CDone b) (core s) (tasks s) (free_locals s)
                      (locals s) (posted s) (completions s) (faulted s))
          | _ => None
          end
      | CDone _ => None
      end
  | CallerTimeout =>
      match pc s, mem s event with
      | CWait i, Some (CEvent false) => Some (set_pc (CPost (S i)) s)
      | _, _ => None
      end
  | IOTask =>
      match tasks s with
      | (sp, ep) :: rest =>
          Some (mkSys (pc s) (ConnectOnIO sp ep (core s)) rest (mem s)
                  (locals s) (posted s) (completions s) (faulted s))
      | [] => None
      end
  | IOConnectDone ok =>
      match socket (core s) with
      | Some (mkWebSocket (Some (sp, ep))) =>
          let c := set_socket (Some (mkWebSocket None)) (core s) in
          match OnConnectCompletedOnIO sp ep ok c (mem s) with
          | Done (c', h') =>
              Some (mkSys (pc s) c' (tasks s) h' (locals s) (posted s)
                      (completions s ++ [ok]) (faulted s))
          | UseAfterFree a =>
              Some (mkSys (pc s) c (tasks s) (mem s) (locals s) (posted s)
                      (completions s) (Some a))
          end
      | _ => None
      end
  | IOMessage m =>
      match socket (core s) with
      | Some _ =>
          Some (mkSys (pc s) (OnMessageReceived m (core s)) (tasks s) (mem s)
                  (locals s) (posted s) (completions s) (faulted s))
      | None => None
      end
  | IOClose =>
      match socket (core s) with
      | Some _ =>
          Some (mkSys (pc s) (OnClose (core s)) (tasks s) (mem s)
                  (locals s) (posted s) (completions s) (faulted s))
      | None => None
      end
  end.

Fixpoint run (tr : list action) (s : sys) : option sys :=
  match tr with
  | [] => Some s
  | a :: tr' => match step a s with Some s' => run tr' s' | None => None end
  end.

(** ** Caller-side operations after a close, for the queue *)
Inductive client_op :=
| OpMessage (m : string)                          (* OnMessageReceived *)
| OpClose                                         (* OnClose *)
| OpReceive (t : Timeout) (now : Z) (ws : list wake)
| OpHasNext.

Inductive observation :=
| ObsReceive (st : StatusCode) (message : string)
| ObsBlocked
| ObsHasNext (b : bool).

Fixpoint run_ops (message : string) (ops : list client_op) (c : Core)
  : list observation * Core :=
  match ops with
  | [] => ([], c)
  | OpMessage m :: ops' => run_ops message ops' (OnMessageReceived m c)
  | OpClose :: ops' => run_ops message ops' (OnClose c)
  | OpReceive t now ws :: ops' =>
      match ReceiveNextMessage t ws now message c with
      | Some (st, message', c') =>
          let (obs, c'') := run_ops message' ops' c' in
          (ObsReceive st message' :: obs, c'')
      | None => ([ObsBlocked], c)
      end
  | OpHasNext :: ops' =>
      let (obs, c') := run_ops message ops' c in (ObsHasNext (HasNextMessage c) :: obs, c')
  end.

End SyncWebSocket.

(* ------------------------------------------------------------------ *)
(** * Properties of the log replay reader *)

Module LogReplayFacts.
Import LogReplay.
Local Open Scope string_scope.

Definition nl : string := String newline EmptyString.

(** The scenario header of an HTTP command and the payload line after it. *)
Definition http_command_header : string :=
  "[1234567890.123][DEBUG]: DevTools HTTP Command: Page.navigate".
Definition url_payload : string := dq "{'url':'http://x'}".

Definition http_command_entry : LogEntry :=
  mkLogEntry HTTP request "Page.navigate" 0 EmptyString false.

(** C1 (counterexample): on the log [http_command_header \n url_payload \n],
    [GetNext(HTTP)] returns an entry whose payload is empty, not the text of
    the payload line: HTTP requests are not followed by payload extraction. *)
Lemma C1_http_command_payload_not_extracted :
  GetNext HTTP (ifstream_of (http_command_header ++ nl ++ url_payload ++ nl))
  = Ret (Some http_command_entry, mk_ifs [url_payload] EmptyString false)
  /\ ~ (exists e fs,
          GetNext HTTP (ifstream_of (http_command_header ++ nl ++ url_payload ++ nl))
          = Ret (Some e, fs) /\ payload e = url_payload).
Proof.
  split; [reflexivity |].
  intros (e & fs & H & Hp). vm_compute in H.
  injection H as <- _. vm_compute in Hp. discriminate Hp.
Qed.

(** C1 (amended): whatever lines follow it, the header line
    [HTTP Command: Page.navigate] yields protocol HTTP, event Request, command
    name ["Page.navigate"], id 0 and an empty payload, and consumes only its
    own line; the payload line after it is no header, so the next call skips
    it. *)
Theorem C1_http_command_entry_amended :
  forall ls last,
    GetNext HTTP (mk_ifs (http_command_header :: ls) last false)
    = Ret (Some http_command_entry, mk_ifs ls last false)
    /\ GetNext HTTP (mk_ifs (url_payload :: ls) last false)
       = GetNext HTTP (mk_ifs ls last false).
Proof. intros ls last; split; reflexivity. Qed.

(** C4: the header parser.  The event token maps ["Response:"] to
    Response, ["Command:"] and ["Request:"] to Request, ["Event:"] to Event,
    any other token to an error; except for (HTTP, Response) a command-name
    token is read and an empty one is an error; for non-HTTP entries the id
    is [GetId] (ignore 5 characters, read an [int], ignore 1), and id 0 is an
    error. *)
Theorem C4_header_parser :
  forall hs pts hs1 p ets hs2,
    read_string hs EmptyString = (pts, hs1) ->
    protocol_of_string pts = Some p ->
    read_string hs1 EmptyString = (ets, hs2) ->
    let e := fst (LogEntry_of_header hs) in
    (forall tok t, event_of_string tok = Some t <->
       (t = response /\ tok = "Response:") \/
       (t = request /\ (tok = "Command:" \/ tok = "Request:")) \/
       (t = event /\ tok = "Event:"))
    /\ (event_of_string ets = None -> error e = true)
    /\ (forall t, event_of_string ets = Some t ->
          protocol_type e = p /\ event_type e = t /\
          (p = HTTP -> t = response -> error e = false)
          /\ (~ (p = HTTP /\ t = response) ->
              forall cmd hs3, read_string hs2 EmptyString = (cmd, hs3) ->
                command_name e = cmd
                /\ (cmd = EmptyString -> error e = true)
                /\ (cmd <> EmptyString -> p = HTTP -> error e = false /\ id e = 0)
                /\ (cmd <> EmptyString -> p <> HTTP ->
                      GetId hs3 = (fst (read_int (ignore 5 hs3) 0),
                                   ignore 1 (snd (read_int (ignore 5 hs3) 0)))
                      /\ id e = fst (GetId hs3)
                      /\ (error e = true <-> id e = 0)))).
Proof.
  intros hs pts hs1 p ets hs2 H1 Hp H2 e.
  subst e. unfold LogEntry_of_header. rewrite H1, Hp, H2.
  split.
  { intros tok t. unfold event_of_string.
    destruct (String.eqb_spec tok "Response:"); subst;
    [ destruct t; simpl; intuition congruence |].
    destruct (String.eqb_spec tok "Command:"); subst;
    [ destruct t; simpl; intuition congruence |].
    destruct (String.eqb_spec tok "Request:"); subst;
    [ destruct t; simpl; intuition congruence |].
    destruct (String.eqb_spec tok "Event:"); subst;
    [ destruct t; simpl; intuition congruence |].
    simpl. intuition congruence. }
  split.
  { intros Hn. rewrite Hn. reflexivity. }
  intros t Ht. rewrite Ht.
  destruct (read_string hs2 EmptyString) as [cmd0 hs30] eqn:H3.
  unfold GetId.
  destruct (read_int (ignore 5 hs30) 0) as [i hs4] eqn:Hi.
  destruct p, t; simpl; rewrite ?H3; simpl;
    destruct (String.eqb_spec cmd0 EmptyString) as [Ec | Ec];
    rewrite ?Hi; simpl;
    destruct (Z.eqb_spec i 0) as [Ei | Ei]; simpl;
    (split; [reflexivity | split; [reflexivity |]]);
    (split; [intros; try congruence; reflexivity |]);
    intros Hnot cmd hs3 H; injection H as <- <-;
    try (exfalso; apply Hnot; split; reflexivity);
    repeat split; try congruence; try tauto.
  all: rewrite Hi; reflexivity.
Qed.

(** A concrete header stream: what [IsHeader] leaves of a WebSocket event
    line. *)
Definition websocket_event_rest : istringstream :=
  iss_of " WebSocket Event: Page.loadEventFired (id=7) {}".

Lemma C4_header_parser_witness :
  read_string websocket_event_rest EmptyString
  = ("WebSocket", snd (read_string websocket_event_rest EmptyString))
  /\ event_type (fst (LogEntry_of_header websocket_event_rest)) = event
  /\ id (fst (LogEntry_of_header websocket_event_rest)) = 7.
Proof.
  split; [reflexivity |].
  destruct (C4_header_parser websocket_event_rest "WebSocket"
              (snd (read_string websocket_event_rest EmptyString)) WebSocket
              "Event:" (snd (read_string (snd (read_string websocket_event_rest
                                                  EmptyString)) EmptyString))
              eq_refl eq_refl eq_refl) as (_ & _ & H).
  destruct (H event eq_refl) as (_ & Ht & _ & Hcmd).
  split; [exact Ht |].
  assert (Hn : ~ (WebSocket = HTTP /\ event = response))
    by (intros [X _]; discriminate X).
  destruct (Hcmd Hn "Page.loadEventFired"
                 (snd (read_string (snd (read_string (snd (read_string
                    websocket_event_rest EmptyString)) EmptyString)) EmptyString))
                 eq_refl) as (_ & _ & _ & Hid).
  destruct (Hid ltac:(discriminate) ltac:(discriminate)) as (_ & Hi & _).
  rewrite Hi. reflexivity.
Defined.

(** ** Unfolding [GetNext] one line at a time *)

Lemma GetNext_cons :
  forall p l ls last,
    GetNext p (mk_ifs (l :: ls) last false)
    = match process_line p l (mk_ifs ls last false) with
      | Some r => r
      | None => GetNext p (mk_ifs ls last false)
      end.
Proof. reflexivity. Qed.

(** The running balance stays away from zero over the given lines. *)
Fixpoint balance_never_zero (o c : ascii) (count : Z) (ls : list string) : Prop :=
  match ls with
  | [] => True
  | l :: ls' =>
      (count + CountChar l o c <> 0)%Z
      /\ balance_never_zero o c (count + CountChar l o c)%Z ls'
  end.

Lemma json_more_exhausted :
  forall o c ls last count json,
    balance_never_zero o c count (ls ++ [last]) ->
    json_more o c count json ls last = (EmptyString, mk_ifs [] EmptyString true).
Proof.
  induction ls as [| l ls IH]; intros last count json H; simpl in *.
  - destruct H as [H _]. apply Z.eqb_neq in H. rewrite H. reflexivity.
  - destruct H as [H1 H2]. apply Z.eqb_neq in H1. rewrite H1. apply IH; exact H2.
Qed.

(** C7: decoding failures abort [GetNext] with null.  A header line whose
    decoding sets [error] makes [GetNext] return null (whatever the
    requested protocol); a matching entry that needs a payload and whose
    extraction yields [""] makes [GetNext] return null; extraction yields
    [""] when the character after the separator is neither [{] nor [[], and
    when the input ends before the balance reaches zero.  (The error
    messages written to the log are not modelled.) *)
Theorem C7_decode_failure_aborts :
  (forall p l ls last hs1,
     IsHeader (iss_of l) = (true, hs1) ->
     error (fst (LogEntry_of_header hs1)) = true ->
     GetNext p (mk_ifs (l :: ls) last false) = Ret (None, mk_ifs ls last false))
  /\ (forall p l ls last hs1 e hs2 fs',
     IsHeader (iss_of l) = (true, hs1) ->
     LogEntry_of_header hs1 = (e, hs2) ->
     error e = false -> protocol_type e = p ->
     ~ (event_type e = request /\ p = HTTP) ->
     GetJSONString hs2 (mk_ifs ls last false) = Ret (EmptyString, fs') ->
     GetNext p (mk_ifs (l :: ls) last false) = Ret (None, fs'))
  /\ (forall hs fs sep ch r,
     fst (getline_iss hs EmptyString) = String sep (String ch r) ->
     closing_of ch = None ->
     GetJSONString hs fs = Ret (EmptyString, fs))
  /\ (forall hs fs sep o r c,
     fst (getline_iss hs EmptyString) = String sep (String o r) ->
     closing_of o = Some c ->
     (CountChar (String o r) o c <> 0)%Z ->
     balance_never_zero o c (CountChar (String o r) o c)
       (ifs_lines fs ++ [ifs_last fs]) ->
     exists fs', GetJSONString hs fs = Ret (EmptyString, fs')).
Proof.
  split; [| split; [| split]].
  - intros p l ls last hs1 Hh He. rewrite GetNext_cons. unfold process_line.
    rewrite Hh. simpl.
    destruct (LogEntry_of_header hs1) as [e hs2]. simpl in He. rewrite He.
    reflexivity.
  - intros p l ls last hs1 e hs2 fs' Hh He Herr Hp Hnot Hj.
    rewrite GetNext_cons. unfold process_line. rewrite Hh. simpl.
    rewrite He, Herr, Hp.
    replace (protocol_eqb p p) with true by (destruct p; reflexivity). simpl.
    replace (negb (event_eqb (event_type e) request && protocol_eqb p HTTP))
      with true.
    + rewrite Hj. reflexivity.
    + destruct (event_type e), p; simpl; try reflexivity;
        exfalso; apply Hnot; split; reflexivity.
  - intros hs fs sep ch r Hl Hc. unfold GetJSONString.
    destruct (getline_iss hs EmptyString) as [l0 hs'] eqn:E. simpl in Hl.
    subst l0. unfold substr. simpl. rewrite Hc. reflexivity.
  - intros hs fs sep o r c Hl Hc Hz Hb. unfold GetJSONString.
    destruct (getline_iss hs EmptyString) as [l0 hs'] eqn:E. simpl in Hl.
    subst l0. unfold substr. simpl. rewrite Hc.
    apply Z.eqb_neq in Hz. rewrite Hz.
    destruct (ifs_eof fs).
    + exists fs. reflexivity.
    + exists (mk_ifs [] EmptyString true).
      rewrite json_more_exhausted by exact Hb. reflexivity.
Qed.

(** A header line whose protocol token is neither HTTP nor WebSocket. *)
Definition bad_protocol_header : string :=
  "[1234567890.123][DEBUG]: DevTools Foo Event: Page.loadEventFired (id=7) {}".

Lemma C7_decode_failure_aborts_witness :
  GetNext HTTP (mk_ifs [bad_protocol_header; url_payload] EmptyString false)
  = Ret (None, mk_ifs [url_payload] EmptyString false)
  /\ GetJSONString (iss_of " x") (ifstream_of EmptyString)
     = Ret (EmptyString, ifstream_of EmptyString).
Proof.
  destruct C7_decode_failure_aborts as (H1 & _ & H3 & _). split.
  - apply (H1 HTTP bad_protocol_header [url_payload] EmptyString
             (snd (IsHeader (iss_of bad_protocol_header)))); reflexivity.
  - apply (H3 _ _ " "%char "x"%char EmptyString); reflexivity.
Defined.

(** A WebSocket event header with nothing after its id: its payload is on
    the next line. *)
Definition event_header_no_remainder : string :=
  "[1234567890.123][DEBUG]: DevTools WebSocket Event: Page.loadEventFired (id=7)".

Lemma substr_1_throws_iff :
  forall l, (exists e, substr l 1 = Throw e) <-> l = EmptyString.
Proof.
  intros [| c l]; unfold substr; simpl; split.
  - reflexivity.
  - intros _. exists out_of_range. reflexivity.
  - intros [e H]. discriminate H.
  - intros H. discriminate H.
Qed.

Lemma GetJSONString_throws_iff :
  forall hs fs,
    (exists e, GetJSONString hs fs = Throw e)
    <-> fst (getline_iss hs EmptyString) = EmptyString.
Proof.
  intros hs fs. rewrite <- substr_1_throws_iff. unfold GetJSONString.
  destruct (getline_iss hs EmptyString) as [l hs']. simpl.
  destruct (substr l 1) as [l' | e].
  - split; intros [e H]; [| discriminate H].
    destruct l' as [| ch r]; [discriminate H |].
    destruct (closing_of ch); [| discriminate H].
    destruct (_ =? 0)%Z; [discriminate H |].
    destruct (ifs_eof fs); discriminate H.
  - split; intros _; exists e; reflexivity.
Qed.

(** C10: [GetJSONString] applies [substr(1)] to what [getline] reads from the
    header stream without a length check.  With nothing left on the header
    line it raises [std::out_of_range]; in general it returns a value
    exactly when the text read is non-empty.  A matched WebSocket header with
    nothing after [(id=7)] makes [GetNext] raise. *)
Theorem C10_substr_needs_remainder :
  (forall hs fs, iss_buf hs = EmptyString ->
                 GetJSONString hs fs = Throw out_of_range)
  /\ (forall hs fs,
        (exists r, GetJSONString hs fs = Ret r)
        <-> fst (getline_iss hs EmptyString) <> EmptyString)
  /\ (forall ls last,
        GetNext WebSocket (mk_ifs (event_header_no_remainder :: ls) last false)
        = Throw out_of_range).
Proof.
  split; [| split].
  - intros [buf eof fail] fs Hb. simpl in Hb. subst buf.
    unfold GetJSONString, getline_iss, iss_good. simpl.
    destruct eof, fail; reflexivity.
  - intros hs fs. rewrite <- GetJSONString_throws_iff. split.
    + intros [r Hr] [e He]. rewrite Hr in He. discriminate He.
    + intros H. destruct (GetJSONString hs fs) as [r | e] eqn:E.
      * exists r. reflexivity.
      * exfalso. apply H. exists e. reflexivity.
  - intros ls last. reflexivity.
Qed.

Lemma C10_substr_needs_remainder_witness :
  GetJSONString (iss_of EmptyString) (ifstream_of EmptyString) = Throw out_of_range.
Proof.
  destruct C10_substr_needs_remainder as (H & _ & _).
  apply H. reflexivity.
Defined.

(** An HTTP response header with its payload on the same line. *)
Definition http_response_header : string :=
  "[1234567890.123][DEBUG]: DevTools HTTP Response: {}".

(** C8 (counterexample): on a log whose first header fails to decode (an
    unknown protocol token) followed by an HTTP response, [GetNext(HTTP)]
    returns null before the end of the input, and a further call still
    returns the HTTP entry: the calls up to the first null do not yield all
    matching entries. *)
Lemma C8_null_before_end_of_input :
  GetNext HTTP (mk_ifs [bad_protocol_header; http_response_header] EmptyString false)
  = Ret (None, mk_ifs [http_response_header] EmptyString false)
  /\ GetNext HTTP (mk_ifs [http_response_header] EmptyString false)
     = Ret (Some (mkLogEntry HTTP response EmptyString 0 "{}" false),
            mk_ifs [] EmptyString false).
Proof. split; reflexivity. Qed.

Lemma GetNext_getline :
  forall p fs l fs1,
    ifs_eof fs = false -> getline_file fs EmptyString = (l, fs1) ->
    GetNext p fs = match process_line p l fs1 with
                   | Some r => r
                   | None => GetNext p fs1
                   end.
Proof.
  intros p [[| l0 ls] last eof] l fs1 He Hg; cbn in He; subst eof;
    unfold getline_file in Hg; cbn in Hg; injection Hg as <- <-; reflexivity.
Qed.

(** C8 (amended): one call of [GetNext(p)] reads the log forward, one
    [getline] at a time; the last line counts even without a final newline,
    after it the file is at its end.  At the end of the input it returns
    null; a line that is not a header is skipped; a header that decodes to
    an entry of another protocol is skipped (only its own line is consumed);
    a header that fails to decode returns null, whatever its protocol; a
    matching HTTP request is returned as it is; another matching entry is
    returned with its extracted payload, or null when the extraction yields
    nothing, and the extraction's [std::out_of_range] propagates, which it
    throws when nothing follows the header tokens.  The file state returned
    is where the next call resumes. *)
Theorem C8_get_next_steps_amended :
  forall p,
  (forall fs, ifs_eof fs = true -> GetNext p fs = Ret (None, fs))
  /\ GetNext p (mk_ifs [] EmptyString false) = Ret (None, mk_ifs [] EmptyString true)
  /\ (forall last, getline_file (mk_ifs [] last false) EmptyString
                   = (last, mk_ifs [] EmptyString true))
  /\ (forall fs l fs1,
        ifs_eof fs = false -> getline_file fs EmptyString = (l, fs1) ->
        (fst (IsHeader (iss_of l)) = false -> GetNext p fs = GetNext p fs1)
        /\ (forall hs1 e hs2,
              IsHeader (iss_of l) = (true, hs1) ->
              LogEntry_of_header hs1 = (e, hs2) ->
              (error e = true -> GetNext p fs = Ret (None, fs1))
              /\ (error e = false -> protocol_type e <> p -> GetNext p fs = GetNext p fs1)
              /\ (error e = false -> protocol_type e = p ->
                  event_type e = request -> p = HTTP ->
                  GetNext p fs = Ret (Some e, fs1))
              /\ (error e = false -> protocol_type e = p ->
                  ~ (event_type e = request /\ p = HTTP) ->
                  GetNext p fs
                  = match GetJSONString hs2 fs1 with
                    | Throw x => Throw x
                    | Ret (pl, fs') =>
                        Ret (if String.eqb pl EmptyString then None
                             else Some (set_payload e pl), fs')
                    end
                  /\ (fst (getline_iss hs2 EmptyString) = EmptyString ->
                      GetNext p fs = Throw out_of_range)))).
Proof.
  intros p. split; [| split; [| split]].
  - intros [ls last eof] He. simpl in He. subst eof. reflexivity.
  - unfold GetNext. simpl. unfold process_line. simpl.
    destruct (MatchPattern EmptyString header_pattern); reflexivity.
  - intros last. reflexivity.
  - intros fs l fs1 Hf Hg. rewrite (GetNext_getline p fs l fs1 Hf Hg).
    split.
    { intros Hh. unfold process_line.
      destruct (IsHeader (iss_of l)) as [b hs1]. simpl in Hh. subst b. reflexivity. }
    intros hs1 e hs2 Hh He. unfold process_line. rewrite Hh. simpl. rewrite He.
    split; [intros Herr; rewrite Herr; reflexivity |].
    split; [| split].
    + intros Herr Hp. rewrite Herr.
      destruct (protocol_type e), p; try (exfalso; apply Hp; reflexivity);
        reflexivity.
    + intros Herr Hp Hr Hq. rewrite Herr, Hp, Hr, Hq. reflexivity.
    + intros Herr Hp Hnot. rewrite Herr, Hp.
      replace (protocol_eqb p p) with true by (destruct p; reflexivity).
      replace (negb (event_eqb (event_type e) request && protocol_eqb p HTTP))
        with true.
      * simpl. split.
        -- destruct (GetJSONString hs2 fs1) as [[pl fs'] | x]; [| reflexivity].
           destruct (String.eqb pl EmptyString); reflexivity.
        -- intros Hl. destruct (proj2 (GetJSONString_throws_iff hs2 fs1) Hl) as [[] Hj].
           rewrite Hj. reflexivity.
      * destruct (event_type e), p; simpl; try reflexivity;
          exfalso; apply Hnot; split; reflexivity.
Qed.

Lemma C8_get_next_steps_amended_witness :
  GetNext HTTP (mk_ifs [url_payload; http_response_header] EmptyString false)
  = GetNext HTTP (mk_ifs [http_response_header] EmptyString false)
  /\ GetNext WebSocket (mk_ifs [] http_response_header false)
     = GetNext WebSocket (mk_ifs [] EmptyString true).
Proof.
  split.
  - destruct (C8_get_next_steps_amended HTTP) as (_ & _ & _ & H).
    apply (proj1 (H (mk_ifs [url_payload; http_response_header] EmptyString false)
                    url_payload (mk_ifs [http_response_header] EmptyString false)
                    eq_refl eq_refl)).
    reflexivity.
  - destruct (C8_get_next_steps_amended WebSocket) as (_ & _ & _ & H).
    destruct (proj2 (H (mk_ifs [] http_response_header false) http_response_header
                       (mk_ifs [] EmptyString true) eq_refl eq_refl)
                (snd (IsHeader (iss_of http_response_header)))
                (fst (LogEntry_of_header (snd (IsHeader (iss_of http_response_header)))))
                (snd (LogEntry_of_header (snd (IsHeader (iss_of http_response_header)))))
                eq_refl eq_refl) as (_ & Hskip & _).
    apply Hskip; [reflexivity | discriminate].
Defined.

(** ** Quote-aware balancing of JSON-like payloads *)

(** JSON-like values as they appear in the log; a string is written as its
    raw body between double quotes (escape sequences are part of the body). *)
Inductive json :=
| JNull
| JBool (b : bool)
| JStr (body : string)
| JArr (vs : jlist)
| JObj (ms : jmembers)
with jlist := JNil | JCons (v : json) (vs : jlist)
with jmembers := MNil | MCons (key : string) (v : json) (ms : jmembers).

Scheme json_mut := Induction for json Sort Prop
with jlist_mut := Induction for jlist Sort Prop
with jmembers_mut := Induction for jmembers Sort Prop.
Combined Scheme json_jlist_jmembers_mut from json_mut, jlist_mut, jmembers_mut.

















(** The shape [GetJSONString] sees in a payload line: [{ }] and [[ ]] groups,
    string literals, and any other text (names, numbers, literals, commas,
    colons, white space) without quotes, backslashes, brackets, braces or
    line breaks.  JSON text is an instance. *)
Inductive jtok :=
| TText (t : string)
| TStr (body : string)
| TGroup (curly : bool) (ts : jtoks)
with jtoks := TNil | TCons (t : jtok) (ts : jtoks).

Scheme jtok_mut := Induction for jtok Sort Prop
with jtoks_mut := Induction for jtoks Sort Prop.
Combined Scheme jtok_jtoks_mut from jtok_mut, jtoks_mut.



Section Balance.

(** The delimiter pair chosen by [GetJSONString]. *)
Variables o c : ascii.
Hypothesis Hoc :
  (o = "{"%char /\ c = "}"%char) \/ (o = "["%char /\ c = "]"%char).












End Balance.

Lemma str_app_assoc : forall a b d : string, (a ++ b) ++ d = a ++ (b ++ d).
Proof. induction a as [| ch a IH]; intros b d; simpl; [reflexivity | rewrite IH; reflexivity]. Qed.










(** ** Extraction outcomes and the file position *)

(** [fs'] is [fs] read forward: either at its end, or with the same tail
    and a suffix of its terminated lines left. *)
Definition ahead (fs fs' : ifstream) : Prop :=
  fs' = mk_ifs [] EmptyString true
  \/ (ifs_eof fs' = false /\ ifs_last fs' = ifs_last fs
      /\ exists pre, ifs_lines fs = (pre ++ ifs_lines fs')%list).

Lemma ahead_refl : forall fs, ifs_eof fs = false -> ahead fs fs.
Proof. intros fs H. right. split; [exact H | split; [reflexivity | exists []; reflexivity]]. Qed.

Lemma json_more_outcome :
  forall o c ls count json last,
    let r := json_more o c count json ls last in
    (fst r = EmptyString /\ snd r = mk_ifs [] EmptyString true)
    \/ ((exists x, fst r = json ++ x)
        /\ ahead (mk_ifs ls last false) (snd r)).
Proof.
  intros o c. induction ls as [| l ls IH]; intros count json last; simpl.
  - destruct (count + CountChar last o c =? 0)%Z; simpl.
    + right. split; [exists last; reflexivity | left; reflexivity].
    + left. split; reflexivity.
  - destruct (count + CountChar l o c =? 0)%Z; simpl.
    + right. split; [exists l; reflexivity |].
      right. split; [reflexivity | split; [reflexivity | exists [l]; reflexivity]].
    + destruct (IH (count + CountChar l o c)%Z (json ++ l) last)
        as [H | ((x & Hx) & Ha)]; [left; exact H | right].
      split; [exists (l ++ x); rewrite Hx; apply str_app_assoc |].
      destruct Ha as [Ha | (He & Hl & pre & Hp)]; [left; exact Ha | right].
      split; [exact He | split; [exact Hl |]].
      exists (l :: pre). simpl. f_equal. exact Hp.
Qed.

Lemma GetJSONString_cases :
  forall hs fs pl fs',
    GetJSONString hs fs = Ret (pl, fs') ->
    (pl = EmptyString /\ (fs' = fs \/ fs' = mk_ifs [] EmptyString true))
    \/ ((exists o r c, pl = String o r /\ closing_of o = Some c)
        /\ (fs' = fs \/ (ifs_eof fs = false /\ ahead fs fs'))).
Proof.
  intros hs fs pl fs' H. unfold GetJSONString in H.
  destruct (getline_iss hs EmptyString) as [l0 hs1].
  destruct (substr l0 1) as [nl |]; [| discriminate].
  destruct nl as [| o r].
  - injection H as <- <-. left. auto.
  - destruct (closing_of o) as [c |] eqn:Hc.
    + destruct (CountChar (String o r) o c =? 0)%Z.
      * injection H as <- <-. right. split; [exists o, r, c; auto | left; reflexivity].
      * destruct (ifs_eof fs) eqn:He.
        -- injection H as <- <-. left. auto.
        -- injection H as H.
           destruct (json_more_outcome o c (ifs_lines fs) (CountChar (String o r) o c)
                       (String o r) (ifs_last fs)) as [(H1 & H2) | ((x & Hx) & Ha)];
             rewrite H in *; simpl in *.
           ++ left. split; [exact H1 | right; exact H2].
           ++ right. split; [exists o, (r ++ x), c; split; [exact Hx | exact Hc] |].
              right. split; [reflexivity |]. destruct fs as [ls last eof]. exact Ha.
    + injection H as <- <-. left. auto.
Qed.

(** [GetJSONString] fails (returns [""]) only leaving the log file where it
    was or at its end, never in the middle of a payload; otherwise it
    consumes a run of lines and returns text that starts with the opening
    bracket [{] or [[]. *)
Theorem GetJSONString_outcome :
  forall hs fs pl fs',
    GetJSONString hs fs = Ret (pl, fs') ->
    (pl = EmptyString /\ (fs' = fs \/ fs' = mk_ifs [] EmptyString true))
    \/ ((exists o r c, pl = String o r /\ closing_of o = Some c)
        /\ (fs' = fs \/ (ifs_eof fs = false /\ ahead fs fs'))).
Proof. exact GetJSONString_cases. Qed.

Lemma GetJSONString_outcome_witness :
  (dq "{'a':1}" = EmptyString /\ (ifstream_of EmptyString = ifstream_of EmptyString
                                  \/ ifstream_of EmptyString = mk_ifs [] EmptyString true))
  \/ ((exists o r c, dq "{'a':1}" = String o r /\ closing_of o = Some c)
      /\ (ifstream_of EmptyString = ifstream_of EmptyString
          \/ (ifs_eof (ifstream_of EmptyString) = false
              /\ ahead (ifstream_of EmptyString) (ifstream_of EmptyString)))).
Proof.
  apply (GetJSONString_outcome (iss_of (dq " {'a':1}")) (ifstream_of EmptyString)).
  vm_compute. reflexivity.
Defined.

Lemma ahead_cons :
  forall l ls last fs', ahead (mk_ifs ls last false) fs' ->
    ahead (mk_ifs (l :: ls) last false) fs'.
Proof.
  intros l ls last fs' [H | (He & Hl & pre & Hp)]; [left; exact H | right].
  split; [exact He | split; [exact Hl |]]. exists (l :: pre). simpl in *. f_equal. exact Hp.
Qed.

Lemma LogEntry_of_header_ok :
  forall hs e hs', LogEntry_of_header hs = (e, hs') -> error e = false ->
    (~ (protocol_type e = HTTP /\ event_type e = response) -> command_name e <> EmptyString)
    /\ (protocol_type e = WebSocket -> id e <> 0%Z).
Proof.
  intros hs e hs' H Herr. unfold LogEntry_of_header in H.
  destruct (read_string hs EmptyString) as [pts hs1].
  destruct (protocol_of_string pts) as [p |];
    [| injection H as <- _; discriminate Herr].
  destruct (read_string hs1 EmptyString) as [ets hs2].
  destruct (event_of_string ets) as [t |];
    [| injection H as <- _; discriminate Herr].
  destruct (protocol_eqb p HTTP && event_eqb t response) eqn:Hr.
  - injection H as <- _. cbn.
    destruct p, t; try discriminate Hr.
    split; [intros Hn; exfalso; apply Hn; split; reflexivity | discriminate].
  - destruct (read_string hs2 _) as [cmd hs3].
    destruct (String.eqb cmd EmptyString) eqn:Hc;
      [injection H as <- _; discriminate Herr |].
    apply String.eqb_neq in Hc.
    destruct (negb (protocol_eqb p HTTP)) eqn:Hp.
    + destruct (GetId hs3) as [i hs4].
      destruct (i =? 0)%Z eqn:Hi; [injection H as <- _; discriminate Herr |].
      injection H as <- _. cbn. apply Z.eqb_neq in Hi. split; auto.
    + injection H as <- _. cbn. split; [auto |].
      intros Hw. subst p. discriminate Hp.
Qed.

Lemma process_line_entry :
  forall p l fs e fs',
    process_line p l fs = Some (Ret (Some e, fs')) ->
    error e = false /\ protocol_type e = p
    /\ (~ (protocol_type e = HTTP /\ event_type e = response) -> command_name e <> EmptyString)
    /\ (protocol_type e = WebSocket -> id e <> 0%Z)
    /\ (~ (event_type e = request /\ p = HTTP) ->
        exists o r c, payload e = String o r /\ closing_of o = Some c).
Proof.
  intros p l fs e fs' H. unfold process_line in H.
  destruct (IsHeader (iss_of l)) as [b hs1]. destruct b; [| discriminate]. cbn in H.
  destruct (LogEntry_of_header hs1) as [le hs2] eqn:Hle.
  destruct (error le) eqn:Herr; [discriminate |].
  destruct (LogEntry_of_header_ok hs1 le hs2 Hle Herr) as [Hcmd Hid].
  destruct (protocol_eqb (protocol_type le) p) eqn:Hp; [| discriminate]. cbn in H.
  assert (Hpe : protocol_type le = p)
    by (destruct (protocol_type le), p; try discriminate Hp; reflexivity).
  destruct (negb (event_eqb (event_type le) request && protocol_eqb (protocol_type le) HTTP))
    eqn:Hn.
  - destruct (GetJSONString hs2 fs) as [[pl fs''] |] eqn:Hj; [| discriminate].
    destruct (String.eqb pl EmptyString) eqn:He; [discriminate |].
    injection H as <- _. cbn.
    split; [exact Herr | split; [exact Hpe | split; [exact Hcmd | split; [exact Hid |]]]].
    intros _. apply String.eqb_neq in He.
    destruct (GetJSONString_cases hs2 fs pl fs'' Hj) as [(E & _) | (Ho & _)];
      [contradiction | exact Ho].
  - injection H as <- _.
    split; [exact Herr | split; [exact Hpe | split; [exact Hcmd | split; [exact Hid |]]]].
    intros Hnot. exfalso. apply Hnot. rewrite <- Hpe.
    destruct (event_type le), (protocol_type le); try discriminate Hn; split; reflexivity.
Qed.

(** Every entry [GetNext(p)] returns is well formed: no error, protocol
    [p], a non-empty command name unless it is an HTTP response, a non-zero
    id if it is a WebSocket entry, and, unless it is an HTTP request, a
    payload that starts with [{] or [[]. *)
Theorem GetNext_entry_well_formed :
  forall p fs e fs',
    GetNext p fs = Ret (Some e, fs') ->
    error e = false /\ protocol_type e = p
    /\ (~ (protocol_type e = HTTP /\ event_type e = response) -> command_name e <> EmptyString)
    /\ (protocol_type e = WebSocket -> id e <> 0%Z)
    /\ (~ (event_type e = request /\ p = HTTP) ->
        exists o r c, payload e = String o r /\ closing_of o = Some c).
Proof.
  intros p [ls last eof] e fs' H. unfold GetNext in H. cbn in H.
  destruct eof; [discriminate |].
  induction ls as [| l ls IH]; cbn in H.
  - destruct (process_line p last (mk_ifs [] EmptyString true)) as [r |] eqn:E;
      [subst r; exact (process_line_entry _ _ _ _ _ E) | discriminate].
  - destruct (process_line p l (mk_ifs ls last false)) as [r |] eqn:E;
      [subst r; exact (process_line_entry _ _ _ _ _ E) | exact (IH H)].
Qed.

Lemma GetNext_entry_well_formed_witness :
  error (mkLogEntry WebSocket event "Page.loadEventFired" 7 "{}" false) = false
  /\ protocol_type (mkLogEntry WebSocket event "Page.loadEventFired" 7 "{}" false) = WebSocket.
Proof.
  destruct (GetNext_entry_well_formed WebSocket
              (ifstream_of ("[1234567890.123][DEBUG]: DevTools WebSocket Event: " ++
                            "Page.loadEventFired (id=7) {}"))
              (mkLogEntry WebSocket event "Page.loadEventFired" 7 "{}" false)
              (mk_ifs [] EmptyString true)) as (H1 & H2 & _);
    [vm_compute; reflexivity |].
  split; [exact H1 | exact H2].
Defined.

Lemma process_line_position :
  forall p l fs r fs',
    process_line p l fs = Some (Ret (r, fs')) ->
    fs' = fs \/ fs' = mk_ifs [] EmptyString true \/ (ifs_eof fs = false /\ ahead fs fs').
Proof.
  intros p l fs r fs' H. unfold process_line in H.
  destruct (IsHeader (iss_of l)) as [b hs1]. destruct b; [| discriminate]. cbn in H.
  destruct (LogEntry_of_header hs1) as [le hs2].
  destruct (error le); [injection H as _ <-; left; reflexivity |].
  destruct (protocol_eqb (protocol_type le) p); [| discriminate]. cbn in H.
  destruct (negb _).
  - destruct (GetJSONString hs2 fs) as [[pl fs''] |] eqn:Hj; [| discriminate].
    assert (Hf : fs' = fs'') by (destruct (String.eqb pl EmptyString);
                                 injection H as _ <-; reflexivity).
    subst fs''.
    destruct (GetJSONString_cases hs2 fs pl fs' Hj)
      as [(_ & [E | E]) | (_ & [E | E])]; auto.
  - injection H as _ <-. left. reflexivity.
Qed.

(** [GetNext] only reads the log forward: a file already at its end is
    left as it is; otherwise the file after the call is either at its end
    or has the same unterminated tail and a suffix of the lines it had. *)
Theorem GetNext_reads_forward :
  forall p fs r fs',
    GetNext p fs = Ret (r, fs') ->
    (ifs_eof fs = true /\ fs' = fs) \/ (ifs_eof fs = false /\ ahead fs fs').
Proof.
  intros p [ls last eof] r fs' H. unfold GetNext in H. cbn in H.
  destruct eof; [injection H as _ <-; left; auto | right; split; [reflexivity |]].
  induction ls as [| l ls IH]; cbn in H.
  - left. destruct (process_line p last (mk_ifs [] EmptyString true)) as [r' |] eqn:E.
    + subst r'. destruct (process_line_position _ _ _ _ _ E) as [E' | [E' | (E' & _)]];
        [exact E' | exact E' | discriminate E'].
    + injection H as _ <-. reflexivity.
  - apply ahead_cons.
    destruct (process_line p l (mk_ifs ls last false)) as [r' |] eqn:E.
    + subst r'. destruct (process_line_position _ _ _ _ _ E) as [E' | [E' | (_ & E')]].
      * subst fs'. apply ahead_refl. reflexivity.
      * left. exact E'.
      * exact E'.
    + exact (IH H).
Qed.

Lemma GetNext_reads_forward_witness :
  (ifs_eof (mk_ifs [url_payload; http_response_header] EmptyString false) = true
   /\ mk_ifs [] EmptyString false = mk_ifs [url_payload; http_response_header] EmptyString false)
  \/ (ifs_eof (mk_ifs [url_payload; http_response_header] EmptyString false) = false
      /\ ahead (mk_ifs [url_payload; http_response_header] EmptyString false)
               (mk_ifs [] EmptyString false)).
Proof.
  apply (GetNext_reads_forward HTTP (mk_ifs [url_payload; http_response_header] EmptyString false)
           (Some (mkLogEntry HTTP response EmptyString 0 "{}" false))).
  vm_compute. reflexivity.
Defined.

(** *** Header text *)

Fixpoint no_space (s : string) : bool :=
  match s with
  | EmptyString => true
  | String c s' => negb (is_space c) && no_space s'
  end.

Definition starts_space (r : string) : bool :=
  match r with EmptyString => true | String c _ => is_space c end.

Fixpoint all_digits (s : string) : bool :=
  match s with
  | EmptyString => true
  | String c s' => is_digit c && all_digits s'
  end.

(** The value [read_int] stores for a decimal value [v]. *)
Definition clamp_int (v : Z) : Z :=
  if (v <? INT_MIN)%Z then INT_MIN else if (INT_MAX <? v)%Z then INT_MAX else v.

Definition sign_value (sign : string) : Z :=
  if String.eqb sign "-" then -1 else 1.

Lemma split_word_app :
  forall w r, no_space w = true -> starts_space r = true -> split_word (w ++ r) = (w, r).
Proof.
  induction w as [| c w IH]; intros r Hw Hr.
  - destruct r as [| c r]; [reflexivity |]. simpl in *. rewrite Hr. reflexivity.
  - simpl in *. apply andb_prop in Hw as [Hc Hw].
    destruct (is_space c); [discriminate |]. rewrite (IH r Hw Hr). reflexivity.
Qed.

Lemma read_string_good :
  forall buf b old, skip_ws buf = b -> b <> EmptyString ->
    read_string (mk_iss buf false false) old
    = let (w, r) := split_word b in (w, mk_iss r (is_empty r) false).
Proof.
  intros buf b old H Hb. unfold read_string. cbn [iss_good iss_eof iss_fail negb andb iss_buf].
  rewrite H. destruct b; [congruence | reflexivity].
Qed.

Lemma read_string_space_word :
  forall w r old, w <> EmptyString -> no_space w = true -> starts_space r = true ->
    read_string (mk_iss (" " ++ w ++ r) false false) old = (w, mk_iss r (is_empty r) false).
Proof.
  intros [| c w'] r old Hne Hw Hr; [congruence |].
  assert (Hc : is_space c = false)
    by (simpl in Hw; destruct (is_space c); [discriminate | reflexivity]).
  rewrite (read_string_good _ (String c w' ++ r)); [| simpl; rewrite Hc; reflexivity
                                                      | discriminate].
  rewrite (split_word_app (String c w') r Hw Hr). reflexivity.
Qed.

Lemma digit_not_space : forall c, is_digit c = true -> is_space c = false.
Proof.
  intros c H. unfold is_digit in H. apply andb_prop in H as [H1 H2].
  apply Nat.leb_le in H1. apply Nat.leb_le in H2. unfold is_space.
  destruct (nat_of_ascii c) as [| [| [| [| [| [| [| [| [| [| [| [| [| [| n]]]]]]]]]]]]]]
    eqn:E; try reflexivity; try lia.
  do 18 (destruct n as [| n]; try reflexivity; try lia).
  destruct n as [| n]; [lia |]. reflexivity.
Qed.

Lemma span_digits_app :
  forall ds rest, all_digits ds = true ->
    span_digits (ds ++ String ")" rest) = (ds, String ")" rest).
Proof.
  induction ds as [| c ds IH]; intros rest H; [reflexivity |].
  simpl in H. apply andb_prop in H as [Hc H]. simpl. rewrite Hc, (IH rest H). reflexivity.
Qed.

Lemma read_int_sign_digits :
  forall sign ds rest,
    (sign = EmptyString \/ sign = "-" \/ sign = "+") ->
    ds <> EmptyString -> all_digits ds = true ->
    fst (read_int (mk_iss (sign ++ ds ++ String ")" rest) false false) 0)
    = clamp_int (sign_value sign * digits_value 0 ds).
Proof.
  intros sign [| d ds'] rest Hs Hne Hds; [congruence |].
  assert (Hd : is_digit d = true) by (simpl in Hds; destruct (is_digit d); auto).
  pose proof (span_digits_app (String d ds') rest Hds) as Hsp.
  unfold read_int, clamp_int. cbn [iss_good iss_eof iss_fail negb andb iss_buf].
  destruct Hs as [-> | [-> | ->]].
  - cbn [append skip_ws]. rewrite (digit_not_space d Hd).
    assert (Hm : forall A (x : A) (f g : string -> A),
               match String d (ds' ++ String ")" rest) with
               | String "-"%char r => f r
               | String "+"%char r => g r
               | _ => x
               end = x).
    { intros A x f g. destruct d as [[] [] [] [] [] [] [] []]; try reflexivity;
        discriminate Hd. }
    rewrite (Hm _ (1, String d (ds' ++ String ")" rest))
                (fun r => (-1, r)) (fun r => (1, r))).
    cbv zeta. change (String d (ds' ++ String ")" rest))
      with (String d ds' ++ String ")" rest). rewrite Hsp. simpl. repeat destruct (Z.ltb _ _); reflexivity.
  - cbn [append skip_ws]. replace (is_space "-"%char) with false by reflexivity.
    cbv iota beta zeta. change (String d (ds' ++ String ")" rest))
      with (String d ds' ++ String ")" rest). rewrite Hsp. simpl. repeat destruct (Z.ltb _ _); reflexivity.
  - cbn [append skip_ws]. replace (is_space "+"%char) with false by reflexivity.
    cbv iota beta zeta. change (String d (ds' ++ String ")" rest))
      with (String d ds' ++ String ")" rest). rewrite Hsp. simpl. repeat destruct (Z.ltb _ _); reflexivity.
Qed.

(** The WebSocket header parse on the text the log writes, [WebSocket]
    [<event token> <name> (id=<int>)]: the name is the command name, and the
    id is the signed decimal after [(id=] with no further check: a negative
    id is kept, a value out of the [int] range is clamped to it, and only
    the value 0 is an error. *)
Theorem LogEntry_of_header_websocket_text :
  forall tok t name sign ds rest,
    event_of_string tok = Some t ->
    name <> EmptyString -> no_space name = true ->
    (sign = EmptyString \/ sign = "-" \/ sign = "+") ->
    ds <> EmptyString -> all_digits ds = true ->
    let e := fst (LogEntry_of_header
                    (iss_of (" WebSocket " ++ tok ++ " " ++ name ++ " (id=" ++ sign ++ ds
                             ++ ")" ++ rest))) in
    protocol_type e = WebSocket /\ event_type e = t /\ command_name e = name
    /\ id e = clamp_int (sign_value sign * digits_value 0 ds)
    /\ (error e = true <-> sign_value sign * digits_value 0 ds = 0).
Proof.
  intros tok t name sign ds rest Ht Hne Hn Hs Hdne Hds e.
  set (tail := " (id=" ++ sign ++ ds ++ ")" ++ rest).
  assert (Htok : tok = "Response:" \/ tok = "Command:" \/ tok = "Request:"
                 \/ tok = "Event:").
  { unfold event_of_string in Ht.
    destruct (String.eqb_spec tok "Response:"); [auto |].
    destruct (String.eqb_spec tok "Command:"); [auto |].
    destruct (String.eqb_spec tok "Request:"); [auto |].
    destruct (String.eqb_spec tok "Event:"); [auto | discriminate]. }
  assert (H1 : forall old, read_string
            (iss_of (" WebSocket " ++ tok ++ " " ++ name ++ tail)) old
          = ("WebSocket", mk_iss (" " ++ tok ++ " " ++ name ++ tail) false false)).
  { intros old. apply (read_string_space_word "WebSocket" (" " ++ tok ++ " " ++ name ++ tail));
      [discriminate | reflexivity | reflexivity]. }
  assert (H2 : forall old, read_string (mk_iss (" " ++ tok ++ " " ++ name ++ tail) false false) old
          = (tok, mk_iss (" " ++ name ++ tail) false false)).
  { intros old. destruct Htok as [-> | [-> | [-> | ->]]];
      apply (read_string_space_word _ (" " ++ name ++ tail));
      solve [discriminate | reflexivity]. }
  assert (H3 : forall old, read_string (mk_iss (" " ++ name ++ tail) false false) old
          = (name, mk_iss tail false false)).
  { intros old. apply (read_string_space_word name tail); auto. }
  assert (Hid : fst (GetId (mk_iss tail false false))
                = clamp_int (sign_value sign * digits_value 0 ds)).
  { unfold GetId, ignore. cbn [iss_good iss_eof iss_fail negb andb iss_buf].
    unfold tail. cbn [append drop_n].
    destruct (read_int (mk_iss (sign ++ ds ++ ")" ++ rest) false false) 0) as [i hs4] eqn:Ei.
    pose proof (read_int_sign_digits sign ds rest Hs Hdne Hds) as R.
    cbn [append] in Ei. rewrite Ei in R |- *. exact R. }
  assert (Hc0 : clamp_int (sign_value sign * digits_value 0 ds) = 0
                <-> sign_value sign * digits_value 0 ds = 0).
  { unfold clamp_int, INT_MIN, INT_MAX.
    destruct (Z.ltb_spec (sign_value sign * digits_value 0 ds) (-2147483648));
      [lia |].
    destruct (Z.ltb_spec 2147483647 (sign_value sign * digits_value 0 ds)); lia. }
  subst e. fold tail. unfold LogEntry_of_header.
  assert (Hp : protocol_of_string "WebSocket" = Some WebSocket) by reflexivity.
  assert (Hne' : String.eqb name EmptyString = false)
    by (apply String.eqb_neq; exact Hne).
  rewrite H1, Hp. cbv beta iota zeta. rewrite H2, Ht. cbv beta iota zeta.
  cbn [protocol_eqb andb negb]. rewrite H3, Hne'. cbv beta iota zeta.
  destruct (GetId (mk_iss tail false false)) as [i hs4] eqn:Eg.
  simpl in Hid.
  destruct (Z.eqb_spec i 0) as [Ei | Ei]; cbn;
    (split; [reflexivity | split; [reflexivity | split; [reflexivity |]]]);
    (split; [exact Hid |]); rewrite <- Hc0, <- Hid; split; congruence.
Qed.

Lemma LogEntry_of_header_websocket_text_witness :
  id (fst (LogEntry_of_header
             (iss_of (" WebSocket " ++ "Event:" ++ " " ++ "Page.loadEventFired" ++ " (id="
                      ++ "-" ++ "5" ++ ")" ++ " {}")))) = -5.
Proof.
  destruct (LogEntry_of_header_websocket_text "Event:" event "Page.loadEventFired" "-" "5" " {}")
    as (_ & _ & _ & H & _);
    [reflexivity | discriminate | reflexivity | right; left; reflexivity
    | discriminate | reflexivity | ].
  rewrite H. reflexivity.
Defined.

(** *** The header preamble *)

Fixpoint qmarks (n : nat) : string :=
  match n with O => EmptyString | S n' => String "?" (qmarks n') end.

Lemma header_pattern_shape :
  header_pattern = "[" ++ qmarks 10 ++ "." ++ qmarks 3 ++ "][DEBUG]:".
Proof. reflexivity. Qed.

Lemma MatchPattern_qmarks :
  forall n a s p, (String.length a <= n)%nat -> MatchPattern s p = true ->
    MatchPattern (a ++ s) (qmarks n ++ p) = true.
Proof.
  induction n as [| n IH]; intros a s p Hl Hm.
  - destruct a; [exact Hm | simpl in Hl; lia].
  - cbn [qmarks append]. simpl MatchPattern.
    destruct a as [| c a].
    + apply orb_true_intro. left. exact (IH EmptyString s p (Nat.le_0_l _) Hm).
    + apply orb_true_intro. right. apply IH; [simpl in Hl; lia | exact Hm].
Qed.

Lemma MatchPattern_literal :
  forall s p, MatchPattern s p = true -> forall c, c <> "?"%char -> c <> "*"%char ->
    c <> "092"%char -> MatchPattern (String c s) (String c p) = true.
Proof.
  intros s p H c H1 H2 H3.
  assert (E : MatchPattern (String c s) (String c p) = (Ascii.eqb c c && MatchPattern s p)).
  { destruct c as [[] [] [] [] [] [] [] []]; try reflexivity;
      exfalso; first [exact (H1 eq_refl) | exact (H2 eq_refl) | exact (H3 eq_refl)]. }
  rewrite E, Ascii.eqb_refl. exact H.
Qed.

(** [IsHeader] does not check the timestamp's digits or length: any
    preamble [[a.b][DEBUG]:] whose parts have no white space, [a] at most ten
    characters and [b] at most three, followed by the word [DevTools], is a
    header (down to [[.][DEBUG]:]). *)
Theorem IsHeader_loose_timestamp :
  forall a b rest,
    no_space a = true -> no_space b = true ->
    (String.length a <= 10)%nat -> (String.length b <= 3)%nat ->
    starts_space rest = true ->
    fst (IsHeader (iss_of ("[" ++ a ++ "." ++ b ++ "][DEBUG]:" ++ " DevTools" ++ rest)))
    = true.
Proof.
  intros a b rest Ha Hb La Lb Hr.
  set (word := "[" ++ a ++ "." ++ b ++ "][DEBUG]:").
  assert (Hw : no_space word = true).
  { unfold word. cbn [append no_space].
    assert (G : forall x y, no_space x = true -> no_space y = true -> no_space (x ++ y) = true).
    { induction x as [| c x IH]; intros y Hx Hy; [exact Hy |].
      simpl in *. apply andb_prop in Hx as [H1 H2]. rewrite H1, (IH y H2 Hy). reflexivity. }
    simpl. apply G; [exact Ha |]. simpl. apply G; [exact Hb | reflexivity]. }
  assert (Hm : MatchPattern word header_pattern = true).
  { unfold word. rewrite header_pattern_shape. cbn [append].
    apply MatchPattern_literal; try discriminate.
    apply MatchPattern_qmarks; [exact La |].
    apply MatchPattern_literal; try discriminate.
    apply MatchPattern_qmarks; [exact Lb | reflexivity]. }
  unfold IsHeader, iss_of.
  assert (E : "[" ++ a ++ "." ++ b ++ "][DEBUG]:" ++ " DevTools" ++ rest
              = word ++ " DevTools" ++ rest).
  { unfold word. rewrite !str_app_assoc. reflexivity. }
  rewrite E.
  destruct word as [| c w'] eqn:Ew; [discriminate |].
  rewrite (read_string_good _ (String c w' ++ " DevTools" ++ rest));
    [| simpl; replace (is_space c) with false; [reflexivity |];
       simpl in Hw; destruct (is_space c); [discriminate | reflexivity]
     | discriminate].
  rewrite (split_word_app (String c w') (" DevTools" ++ rest) Hw eq_refl).
  rewrite Hm. cbv beta iota zeta. cbn [negb].
  rewrite (read_string_space_word "DevTools" rest); [reflexivity | discriminate
                                                    | reflexivity | exact Hr].
Qed.

Lemma IsHeader_loose_timestamp_witness :
  fst (IsHeader (iss_of ("[" ++ "1" ++ "." ++ "x" ++ "][DEBUG]:" ++ " DevTools" ++ " HTTP")))
  = true.
Proof.
  apply (IsHeader_loose_timestamp "1" "x" " HTTP"); [reflexivity | reflexivity | simpl; lia
                                                   | simpl; lia | reflexivity].
Defined.

(** *** [CountChar] outside string literals *)

Fixpoint occurrences (ch : ascii) (s : string) : Z :=
  match s with
  | EmptyString => 0
  | String c s' => (if Ascii.eqb c ch then 1 else 0) + occurrences ch s'
  end.

Fixpoint no_dquote (s : string) : bool :=
  match s with
  | EmptyString => true
  | String c s' => negb (Ascii.eqb c dquote) && no_dquote s'
  end.

(** On a line without a double quote, [CountChar] is the plain balance: the
    number of opening characters minus the number of closing ones. *)
Theorem CountChar_without_quotes :
  forall line o c, no_dquote line = true ->
    CountChar line o c = occurrences o line - occurrences c line.
Proof.
  intros line o c. unfold CountChar. generalize (@None ascii) as prev.
  induction line as [| x line IH]; intros prev H; [reflexivity |].
  simpl in H. apply andb_prop in H as [Hx H].
  cbn [count_char_from occurrences negb andb].
  destruct (Ascii.eqb x dquote); [discriminate |]. cbn [andb].
  rewrite (IH (Some x) H).
  destruct (Ascii.eqb x o), (Ascii.eqb x c); lia.
Qed.

Lemma CountChar_without_quotes_witness :
  CountChar "{a:[1,{}]}" "{"%char "}"%char = 0.
Proof.
  rewrite (CountChar_without_quotes "{a:[1,{}]}" "{"%char "}"%char eq_refl). reflexivity.
Defined.

End LogReplayFacts.

(** * Facts about the synchronous WebSocket core *)
Module SyncWebSocketFacts.
Import SyncWebSocket.

Definition total_elapsed (ws : list wake) : Z :=
  fold_right (fun w acc => (wake_elapsed w + acc)%Z) 0%Z ws.

Lemma ReceiveNextMessage_unfold :
  forall t ws now message c,
    ReceiveNextMessage t ws now message c =
    if negb (HasNextMessage c) && is_connected c then
      if GetRemainingTime t now <=? 0 then Some (kTimeout, message, c)
      else match ws with
           | [] => None
           | w :: ws' =>
               ReceiveNextMessage t ws' (now + wake_elapsed w) message
                 (apply_events (wake_events w) c)
           end
    else if negb (is_connected c) then Some (kDisconnected, message, c)
    else match received_queue c with
         | m :: q => Some (kOk, m, set_queue q c)
         | [] => Some (kDisconnected, message, c)
         end.
Proof. intros t [| w ws]; reflexivity. Qed.

Lemma apply_events_disconnected :
  forall es c, is_connected c = false -> is_connected (apply_events es c) = false.
Proof.
  induction es as [| e es IH]; intros c H; [exact H |].
  apply IH. destruct e; exact H || reflexivity.
Qed.

Lemma apply_events_close :
  forall es c, In EvClose es -> is_connected (apply_events es c) = false.
Proof.
  induction es as [| e es IH]; intros c H; [destruct H |].
  destruct H as [He | H].
  - subst e. simpl. apply apply_events_disconnected. reflexivity.
  - simpl. apply IH, H.
Qed.

Lemma receive_disconnected :
  forall t ws now message c,
    is_connected c = false ->
    ReceiveNextMessage t ws now message c = Some (kDisconnected, message, c).
Proof.
  intros t ws now message c H. rewrite ReceiveNextMessage_unfold, H.
  rewrite andb_false_r. reflexivity.
Qed.

(** C2 (counterexample): a call that finds the connection already closed
    with a message still queued, well before its deadline, neither waits nor
    times out, and it does not pop the message: it returns [Disconnected]. *)
Lemma C2_queued_message_after_close_not_ok :
  HasNextMessage (mkCore ["m"%string] false None) = true
  /\ (GetRemainingTime (mkTimeout 10) 0 > 0)%Z
  /\ (forall ws, ReceiveNextMessage (mkTimeout 10) ws 0 EmptyString
                   (mkCore ["m"%string] false None)
                 = Some (kDisconnected, EmptyString, mkCore ["m"%string] false None)).
Proof.
  split; [reflexivity | split; [reflexivity |]].
  intros ws. destruct ws; reflexivity.
Qed.

(** C2 (amended): each check under the lock decides.  If the queue is empty
    and the connection is up, a remaining budget of at most 0 gives
    [Timeout] (also on entry) and otherwise the call waits and checks again
    after the wake.  A connection found down at a check, on entry or after a
    wake in which the close fired, gives [Disconnected] at once, with any
    queued messages left in place.  Only a connected, non-empty queue gives
    [Ok] with the popped front.  Once the wakes have used up the budget the
    call has resolved. *)
Theorem C2_receive_resolution_amended :
  (forall t ws now message c,
     HasNextMessage c = false -> is_connected c = true ->
     (GetRemainingTime t now <= 0)%Z ->
     ReceiveNextMessage t ws now message c = Some (kTimeout, message, c))
  /\ (forall t ws now message c,
        is_connected c = false ->
        ReceiveNextMessage t ws now message c = Some (kDisconnected, message, c))
  /\ (forall t ws now message c m q,
        is_connected c = true -> received_queue c = m :: q ->
        ReceiveNextMessage t ws now message c = Some (kOk, m, set_queue q c))
  /\ (forall t w ws now message c,
        HasNextMessage c = false -> is_connected c = true ->
        (0 < GetRemainingTime t now)%Z ->
        ReceiveNextMessage t [] now message c = None
        /\ ReceiveNextMessage t (w :: ws) now message c
           = ReceiveNextMessage t ws (now + wake_elapsed w) message
               (apply_events (wake_events w) c))
  /\ (forall t w ws now message c,
        HasNextMessage c = false -> is_connected c = true ->
        (0 < GetRemainingTime t now)%Z -> In EvClose (wake_events w) ->
        ReceiveNextMessage t (w :: ws) now message c
        = Some (kDisconnected, message, apply_events (wake_events w) c))
  /\ (forall t ws now message c,
        (GetRemainingTime t now <= total_elapsed ws)%Z ->
        ReceiveNextMessage t ws now message c <> None).
Proof.
  split; [| split; [| split; [| split; [| split]]]].
  - intros t ws now message c Hn Hc Ht. rewrite ReceiveNextMessage_unfold, Hn, Hc.
    apply Z.leb_le in Ht. rewrite Ht. reflexivity.
  - intros. apply receive_disconnected. assumption.
  - intros t ws now message c m q Hc Hq. rewrite ReceiveNextMessage_unfold.
    unfold HasNextMessage. rewrite Hq, Hc. reflexivity.
  - intros t w ws now message c Hn Hc Ht.
    assert (Hb : (GetRemainingTime t now <=? 0)%Z = false) by (apply Z.leb_gt; lia).
    split; rewrite ReceiveNextMessage_unfold, Hn, Hc, Hb; reflexivity.
  - intros t w ws now message c Hn Hc Ht Hin.
    assert (Hb : (GetRemainingTime t now <=? 0)%Z = false) by (apply Z.leb_gt; lia).
    rewrite ReceiveNextMessage_unfold, Hn, Hc, Hb.
    apply receive_disconnected, apply_events_close, Hin.
  - induction ws as [| w ws IH]; intros now message c Hb;
      rewrite ReceiveNextMessage_unfold.
    + simpl in Hb. apply Z.leb_le in Hb. rewrite Hb.
      destruct (negb (HasNextMessage c) && is_connected c); [discriminate |].
      destruct (negb (is_connected c)); [discriminate |].
      destruct (received_queue c); discriminate.
    + destruct (negb (HasNextMessage c) && is_connected c).
      * destruct (GetRemainingTime t now <=? 0)%Z; [discriminate |].
        apply IH. unfold GetRemainingTime in *. simpl in Hb. lia.
      * destruct (negb (is_connected c)); [discriminate |].
        destruct (received_queue c); discriminate.
Qed.

Lemma C2_receive_resolution_amended_witness :
  ReceiveNextMessage (mkTimeout 10) [mkWake [EvClose] 3] 0 EmptyString (mkCore [] true None)
  = Some (kDisconnected, EmptyString, mkCore [] false None)
  /\ ReceiveNextMessage (mkTimeout 10) [mkWake [] 10] 0 EmptyString (mkCore [] true None)
     <> None.
Proof.
  split.
  - apply (proj1 (proj2 (proj2 (proj2 (proj2 C2_receive_resolution_amended))))
             (mkTimeout 10) (mkWake [EvClose] 3) [] 0 EmptyString (mkCore [] true None));
      [reflexivity | reflexivity | vm_compute; reflexivity | simpl; left; reflexivity].
  - apply (proj2 (proj2 (proj2 (proj2 (proj2 C2_receive_resolution_amended))))
             (mkTimeout 10) [mkWake [] 10] 0 EmptyString (mkCore [] true None)).
    vm_compute. discriminate.
Defined.

(** C3: a [ConnectOnIO] task that finds a socket already connected only
    clears the queue: the [success] and [event] addresses it was given are
    neither accessed nor kept by the socket, whatever the memory holds at
    them (freed included), so no later completion can reach them through
    this task. *)
Theorem C3_connected_branch_keeps_no_pointer :
  forall s success event rest w,
    tasks s = (success, event) :: rest ->
    socket (core s) = Some w -> is_connected (core s) = true ->
    ConnectOnIO success event (core s) = set_queue [] (core s)
    /\ step IOTask s
       = Some (mkSys (pc s) (set_queue [] (core s)) rest (mem s) (locals s)
                 (posted s) (completions s) (faulted s)).
Proof.
  intros s success event rest w Ht Hs Hc.
  assert (E : ConnectOnIO success event (core s) = set_queue [] (core s)).
  { unfold ConnectOnIO. simpl. rewrite Hs, Hc. reflexivity. }
  split; [exact E |].
  unfold step. destruct (locals s). rewrite Ht, E. reflexivity.
Qed.

Lemma C3_connected_branch_keeps_no_pointer_witness :
  ConnectOnIO 0%nat 1%nat (mkCore ["m"%string] true (Some (mkWebSocket None)))
  = mkCore [] true (Some (mkWebSocket None)).
Proof.
  refine (proj1 (C3_connected_branch_keeps_no_pointer
           (mkSys (CPost 1) (mkCore ["m"%string] true (Some (mkWebSocket None)))
              [(0%nat, 1%nat)] (fun _ => None) (0%nat, 1%nat) 1%nat [true] None)
           0%nat 1%nat [] (mkWebSocket None) _ _ _)); reflexivity.
Defined.

Lemma run_ops_disconnected :
  forall ops message c,
    is_connected c = false ->
    let (obs, c') := run_ops message ops c in
    (forall o, In o obs ->
       o = ObsReceive kDisconnected message
       \/ exists b, o = ObsHasNext b /\ (HasNextMessage c = true -> b = true))
    /\ (exists q, received_queue c' = received_queue c ++ q)
    /\ is_connected c' = false.
Proof.
  induction ops as [| op ops IH]; intros message c Hc; simpl.
  - split; [intros o [] |]. split; [exists []; symmetry; apply app_nil_r | exact Hc].
  - destruct op as [m | | t now ws |].
    + specialize (IH message (OnMessageReceived m c) Hc).
      destruct (run_ops message ops (OnMessageReceived m c)) as [obs c'].
      destruct IH as (Ho & (q & Hq) & Hc').
      split; [| split; [exists (m :: q); rewrite Hq; simpl; rewrite <- app_assoc;
                        reflexivity | exact Hc']].
      intros o Hin. destruct (Ho o Hin) as [E | (b & E & Hb)]; [left; exact E |].
      right. exists b. split; [exact E |]. intros Hn. apply Hb.
      unfold HasNextMessage, OnMessageReceived in *. simpl.
      destruct (received_queue c); [discriminate | reflexivity].
    + specialize (IH message (OnClose c) eq_refl).
      destruct (run_ops message ops (OnClose c)) as [obs c'].
      exact IH.
    + rewrite receive_disconnected by exact Hc.
      specialize (IH message c Hc).
      destruct (run_ops message ops c) as [obs c'].
      destruct IH as (Ho & Hq & Hc').
      split; [| split; assumption].
      intros o [E | Hin]; [left; symmetry; exact E | exact (Ho o Hin)].
    + specialize (IH message c Hc).
      destruct (run_ops message ops c) as [obs c'].
      destruct IH as (Ho & Hq & Hc').
      split; [| split; assumption].
      intros o [E | Hin]; [| exact (Ho o Hin)].
      right. exists (HasNextMessage c). split; [symmetry; exact E | trivial].
Qed.

(** C9: once [OnClose] has marked the core disconnected, and as long as no
    connection is made again, every [ReceiveNextMessage] returns
    [Disconnected] and leaves the caller's message and the queue as they are,
    whatever arrives meanwhile; the queue only grows, so [HasNextMessage]
    keeps reporting [true] when messages were queued at the close.  A new
    [ConnectOnIO] empties the queue, so those messages are never delivered. *)
Theorem C9_closed_core_never_delivers :
  (forall ops message c,
     is_connected c = false ->
     let (obs, c') := run_ops message ops c in
     (forall o, In o obs ->
        o = ObsReceive kDisconnected message
        \/ exists b, o = ObsHasNext b /\ (HasNextMessage c = true -> b = true))
     /\ (exists q, received_queue c' = received_queue c ++ q)
     /\ is_connected c' = false)
  /\ (forall success event c, received_queue (ConnectOnIO success event c) = []).
Proof.
  split.
  - exact run_ops_disconnected.
  - intros success event c. unfold ConnectOnIO. simpl.
    destruct (socket c); [destruct (is_connected c) |]; reflexivity.
Qed.

Lemma C9_closed_core_never_delivers_witness :
  run_ops "old"%string
    [OpHasNext; OpReceive (mkTimeout 10) 0 []; OpMessage "late"%string;
     OpReceive (mkTimeout 10) 0 []; OpHasNext]
    (OnClose (mkCore ["m"%string] true None))
  = ([ObsHasNext true; ObsReceive kDisconnected "old"%string;
      ObsReceive kDisconnected "old"%string; ObsHasNext true],
     mkCore ["m"%string; "late"%string] false None)
  /\ (forall o, In o [ObsHasNext true; ObsReceive kDisconnected "old"%string;
                      ObsReceive kDisconnected "old"%string; ObsHasNext true] ->
        o = ObsReceive kDisconnected "old"%string
        \/ exists b, o = ObsHasNext b
                     /\ (HasNextMessage (OnClose (mkCore ["m"%string] true None)) = true
                         -> b = true)).
Proof.
  split; [reflexivity |].
  pose proof (proj1 C9_closed_core_never_delivers
                [OpHasNext; OpReceive (mkTimeout 10) 0 []; OpMessage "late"%string;
                 OpReceive (mkTimeout 10) 0 []; OpHasNext]
                "old"%string (OnClose (mkCore ["m"%string] true None)) eq_refl) as H.
  simpl in H. destruct H as (Ho & _ & _). exact Ho.
Defined.

(** A core with no socket yet, and a frame with [success = false] at
    address 0 and an unsignaled [event] at address 1. *)
Definition idle_core : Core := mkCore [] false None.

Definition connect_frame : heap :=
  fun a => match a with
           | O => Some (CBool false)
           | S O => Some (CEvent false)
           | _ => None
           end.

Definition connect_start : sys := connect_init idle_core connect_frame 0%nat 1%nat.

(** The first task runs and its socket starts connecting; the three waits
    time out, the two later tasks not having run yet. *)
Definition three_timeouts : list action :=
  [Caller; IOTask; CallerTimeout; Caller; CallerTimeout; Caller; CallerTimeout].

(** The first socket's connection succeeds between the loop's exit and the
    read of [success]. *)
Definition late_success : list action := [Caller; IOConnectDone true; Caller].

(** C6 (counterexample): after three attempts whose waits all time out,
    [Connect] returns [true], because the connection of the first attempt
    completes successfully after its wait timed out and before [success] is
    read. *)
Lemma C6_true_after_three_timeouts :
  option_map pc (run three_timeouts connect_start) = Some (CPost 3)
  /\ option_map posted (run three_timeouts connect_start) = Some 3%nat
  /\ option_map completions (run three_timeouts connect_start) = Some []
  /\ option_map pc (run (three_timeouts ++ late_success) connect_start)
     = Some (CDone true).
Proof. vm_compute. repeat split. Qed.

Lemma heap_upd_eq : forall h a v, heap_upd h a v a = v.
Proof. intros h a v. unfold heap_upd. rewrite Nat.eqb_refl. reflexivity. Qed.

Lemma heap_upd_neq : forall h a a' v, a' <> a -> heap_upd h a v a' = h a'.
Proof.
  intros h a a' v H. unfold heap_upd.
  destruct (Nat.eqb_spec a' a); [contradiction | reflexivity].
Qed.

Lemma ConnectOnIO_socket :
  forall success event c,
    socket (ConnectOnIO success event c) = socket c
    \/ socket (ConnectOnIO success event c) = Some (mkWebSocket (Some (success, event))).
Proof.
  intros success event c. unfold ConnectOnIO, set_socket, set_queue. simpl.
  destruct (socket c); [destruct (is_connected c) |]; simpl; auto.
Qed.

Lemma completion_live :
  forall success event ok c h b0 e,
    success <> event -> h success = Some (CBool b0) -> h event = Some (CEvent e) ->
    OnConnectCompletedOnIO success event ok c h
    = Done (if ok then set_connected true c else c,
            heap_upd (heap_upd h success (Some (CBool ok))) event (Some (CEvent true))).
Proof.
  intros success event ok c h b0 e Hne Hs He.
  unfold OnConnectCompletedOnIO, store_bool. rewrite Hs.
  unfold Signal. rewrite heap_upd_neq by congruence. rewrite He. reflexivity.
Qed.

Lemma completion_freed :
  forall success event ok c h,
    h success = None ->
    OnConnectCompletedOnIO success event ok c h = UseAfterFree success.
Proof.
  intros success event ok c h Hs. unfold OnConnectCompletedOnIO, store_bool.
  rewrite Hs. reflexivity.
Qed.

(** While [Connect] runs, [success] holds the result of the last completed
    connection ([false] before any), and a signaled [event] has been
    signaled by a completion. *)
Definition frame_live (s : sys) : Prop :=
  mem s (fst (locals s)) = Some (CBool (last (completions s) false))
  /\ exists e, mem s (snd (locals s)) = Some (CEvent e)
               /\ (e = true -> completions s <> []).

Definition connect_inv (sa ea : addr) (s : sys) : Prop :=
  locals s = (sa, ea) /\ sa <> ea
  /\ Forall (fun t => t = (sa, ea)) (tasks s)
  /\ (forall w, socket (core s) = Some w ->
        on_connect w = None \/ on_connect w = Some (sa, ea))
  /\ match pc s with
     | CPost i => posted s = i /\ (i <= 3)%nat /\ frame_live s /\ faulted s = None
     | CWait i => posted s = S i /\ (i < 3)%nat /\ frame_live s /\ faulted s = None
     | CReturn => (posted s <= 3)%nat /\ frame_live s /\ faulted s = None
     | CDone b => (posted s <= 3)%nat /\ b = last (completions s) false
                  /\ mem s sa = None
     end.

Lemma completion_frame_live :
  forall m sa ea cs ok b0 e,
    sa <> ea -> m sa = Some (CBool b0) -> m ea = Some (CEvent e) ->
    heap_upd (heap_upd m sa (Some (CBool ok))) ea (Some (CEvent true)) sa
    = Some (CBool (last (cs ++ [ok]) false))
    /\ exists e', heap_upd (heap_upd m sa (Some (CBool ok))) ea (Some (CEvent true)) ea
                  = Some (CEvent e') /\ (e' = true -> cs ++ [ok] <> []).
Proof.
  intros m sa ea cs ok b0 e Hne _ _. split.
  - rewrite heap_upd_neq by exact Hne. rewrite heap_upd_eq, last_last. reflexivity.
  - exists true. split; [apply heap_upd_eq |]. intros _ H. destruct cs; discriminate.
Qed.

Lemma completion_socket :
  forall (ok : bool) c w,
    socket (if ok then set_connected true (set_socket w c) else set_socket w c) = w.
Proof. intros [|] c w; reflexivity. Qed.

Lemma connect_inv_step :
  forall sa ea a s s', connect_inv sa ea s -> step a s = Some s' -> connect_inv sa ea s'.
Proof.
  intros sa ea a [p c ts m [sa' ea'] po cs f] s' Inv Hst.
  destruct Inv as (Hl & Hne & Hts & Hsk & Hpc). simpl in Hl, Hts, Hsk, Hpc.
  injection Hl as -> ->.
  unfold step in Hst. cbn [locals] in Hst.
  unfold connect_inv, frame_live in *. cbn [pc core tasks mem locals posted completions
                                          faulted fst snd] in *.
  destruct a as [ | | | ok | msg |].
  - destruct p as [i | i | | b].
    + destruct Hpc as (Hpo & Hi & Hfl & Hf).
      destruct (Nat.ltb i 3) eqn:Hlt; injection Hst as <-; cbn.
      * apply Nat.ltb_lt in Hlt.
        split; [reflexivity | split; [exact Hne | split]].
        { apply Forall_app. split; [exact Hts | constructor; [reflexivity | constructor]]. }
        split; [exact Hsk | split; [lia | split; [exact Hlt | split; assumption]]].
      * split; [reflexivity | split; [exact Hne | split; [exact Hts |]]].
        split; [exact Hsk | split; [lia | split; assumption]].
    + destruct Hpc as (Hpo & Hi & (Hsa & e & He & Her) & Hf).
      rewrite He in Hst. destruct e; [| discriminate]. injection Hst as <-. cbn.
      split; [reflexivity | split; [exact Hne | split; [exact Hts |]]].
      split; [exact Hsk | split; [lia | split; [| exact Hf]]].
      split.
      * rewrite heap_upd_neq by exact Hne. exact Hsa.
      * exists false. split; [apply heap_upd_eq | discriminate].
    + destruct Hpc as (Hpo & (Hsa & _) & Hf).
      rewrite Hsa in Hst. injection Hst as <-. cbn.
      split; [reflexivity | split; [exact Hne | split; [exact Hts |]]].
      split; [exact Hsk | split; [exact Hpo | split; [reflexivity |]]].
      unfold free_locals. cbn [mem locals fst snd].
      rewrite heap_upd_neq by exact Hne. apply heap_upd_eq.
    + discriminate.
  - destruct p as [i | i | | b]; try discriminate.
    destruct Hpc as (Hpo & Hi & (Hsa & e & He & Her) & Hf).
    rewrite He in Hst. destruct e; [discriminate |].
    injection Hst as <-. cbn.
    split; [reflexivity | split; [exact Hne | split; [exact Hts |]]].
    split; [exact Hsk | split; [exact Hpo | split; [lia | split; [| exact Hf]]]].
    split; [exact Hsa | exists false; split; [exact He | exact Her]].
  - destruct ts as [| [sp ep] rest]; [discriminate |].
    injection Hst as <-. inversion Hts as [| x l Heq Hrest]; subst.
    injection Heq as -> ->. cbn.
    split; [reflexivity | split; [exact Hne | split; [exact Hrest |]]].
    split; [| exact Hpc].
    intros w Hw. destruct (ConnectOnIO_socket sa ea c) as [E | E]; rewrite E in Hw.
    + apply Hsk, Hw.
    + injection Hw as <-. right. reflexivity.
  - destruct (socket c) as [[[[sp ep] |]] |] eqn:Hsock; try discriminate.
    destruct (Hsk _ eq_refl) as [H | H]; cbn in H; [discriminate |].
    injection H as -> ->.
    destruct p as [i | i | | b].
    + destruct Hpc as (Hpo & Hi & (Hsa & e & He & Her) & Hf).
      rewrite (completion_live sa ea ok _ m _ e Hne Hsa He) in Hst.
      injection Hst as <-. cbn.
      split; [reflexivity | split; [exact Hne | split; [exact Hts |]]].
      split; [intros w Hw; rewrite completion_socket in Hw; injection Hw as <-;
              left; reflexivity |].
      split; [exact Hpo | split; [exact Hi | split; [| exact Hf]]].
      exact (completion_frame_live m sa ea cs ok _ e Hne Hsa He).
    + destruct Hpc as (Hpo & Hi & (Hsa & e & He & Her) & Hf).
      rewrite (completion_live sa ea ok _ m _ e Hne Hsa He) in Hst.
      injection Hst as <-. cbn.
      split; [reflexivity | split; [exact Hne | split; [exact Hts |]]].
      split; [intros w Hw; rewrite completion_socket in Hw; injection Hw as <-;
              left; reflexivity |].
      split; [exact Hpo | split; [exact Hi | split; [| exact Hf]]].
      exact (completion_frame_live m sa ea cs ok _ e Hne Hsa He).
    + destruct Hpc as (Hpo & (Hsa & e & He & Her) & Hf).
      rewrite (completion_live sa ea ok _ m _ e Hne Hsa He) in Hst.
      injection Hst as <-. cbn.
      split; [reflexivity | split; [exact Hne | split; [exact Hts |]]].
      split; [intros w Hw; rewrite completion_socket in Hw; injection Hw as <-;
              left; reflexivity |].
      split; [exact Hpo | split; [| exact Hf]].
      exact (completion_frame_live m sa ea cs ok _ e Hne Hsa He).
    + destruct Hpc as (Hpo & Hb & Hsa).
      rewrite completion_freed in Hst by exact Hsa.
      injection Hst as <-. cbn.
      split; [reflexivity | split; [exact Hne | split; [exact Hts |]]].
      split; [intros w Hw; injection Hw as <-; left; reflexivity |].
      split; [exact Hpo | split; assumption].
  - destruct (socket c) as [w0 |] eqn:Hsock; [| discriminate].
    injection Hst as <-. cbn.
    split; [reflexivity | split; [exact Hne | split; [exact Hts |]]].
    split; [rewrite Hsock; exact Hsk | exact Hpc].
  - destruct (socket c) as [w0 |] eqn:Hsock; [| discriminate].
    injection Hst as <-. cbn.
    split; [reflexivity | split; [exact Hne | split; [exact Hts |]]].
    split; [rewrite Hsock; exact Hsk | exact Hpc].
Qed.

Lemma connect_inv_run :
  forall sa ea tr s s', connect_inv sa ea s -> run tr s = Some s' -> connect_inv sa ea s'.
Proof.
  intros sa ea. induction tr as [| a tr IH]; intros s s' Hi Hr; simpl in Hr.
  - injection Hr as <-. exact Hi.
  - destruct (step a s) as [s1 |] eqn:E; [| discriminate].
    exact (IH s1 s' (connect_inv_step sa ea a s s1 Hi E) Hr).
Qed.

Lemma connect_inv_init :
  forall c h sa ea,
    sa <> ea -> h sa = Some (CBool false) -> h ea = Some (CEvent false) ->
    (forall w, socket c = Some w -> on_connect w = None) ->
    connect_inv sa ea (connect_init c h sa ea).
Proof.
  intros c h sa ea Hne Hs He Hw. unfold connect_inv, frame_live. cbn.
  split; [reflexivity | split; [exact Hne | split; [constructor |]]].
  split; [intros w H; left; exact (Hw w H) |].
  split; [reflexivity | split; [lia | split; [| reflexivity]]].
  split; [exact Hs | exists false; split; [exact He | discriminate]].
Qed.

(** After [Connect] has returned, a connection still pending on the socket
    carries the addresses of [Connect]'s locals [success] and [event], which
    are freed: its completion writes to freed memory. *)
Theorem connect_completion_after_return_uses_freed_memory :
  forall c h sa ea,
    sa <> ea -> h sa = Some (CBool false) -> h ea = Some (CEvent false) ->
    (forall w, socket c = Some w -> on_connect w = None) ->
    forall tr s b w p,
      run tr (connect_init c h sa ea) = Some s ->
      pc s = CDone b -> socket (core s) = Some w -> on_connect w = Some p ->
      p = (sa, ea) /\ mem s sa = None
      /\ forall ok, option_map faulted (step (IOConnectDone ok) s) = Some (Some sa).
Proof.
  intros c h sa ea Hne Hs He Hw tr s b w p Hr Hp Hsock Hon.
  pose proof (connect_inv_run sa ea tr _ s (connect_inv_init c h sa ea Hne Hs He Hw) Hr)
    as (Hl & _ & _ & Hsk & Hpc).
  rewrite Hp in Hpc. destruct Hpc as (_ & _ & Hfree).
  destruct (Hsk w Hsock) as [H | H]; rewrite Hon in H; [discriminate |].
  injection H as ->.
  split; [reflexivity | split; [exact Hfree |]].
  intros ok. destruct s as [pc0 c0 ts m lc po cs f]. cbn in Hl, Hsock, Hfree |- *.
  subst lc. unfold step. cbn. rewrite Hsock.
  destruct w as [on]. cbn in Hon. subst on.
  rewrite completion_freed by exact Hfree. reflexivity.
Qed.

Lemma connect_completion_after_return_uses_freed_memory_witness :
  match run (three_timeouts ++ [Caller; Caller]) connect_start with
  | Some s => pc s = CDone false
              /\ forall ok, option_map faulted (step (IOConnectDone ok) s) = Some (Some 0%nat)
  | None => False
  end.
Proof.
  destruct (run (three_timeouts ++ [Caller; Caller]) connect_start) as [s |] eqn:E;
    [| vm_compute in E; discriminate].
  assert (Hp : pc s = CDone false) by (vm_compute in E; injection E as <-; reflexivity).
  assert (Hw : socket (core s) = Some (mkWebSocket (Some (0%nat, 1%nat))))
    by (vm_compute in E; injection E as <-; reflexivity).
  destruct (connect_completion_after_return_uses_freed_memory idle_core connect_frame
              0%nat 1%nat ltac:(lia) eq_refl eq_refl ltac:(intros w' Hw'; discriminate)
              (three_timeouts ++ [Caller; Caller]) s false _ (0%nat, 1%nat)
              E Hp Hw eq_refl) as (_ & _ & H).
  split; [exact Hp | exact H].
Defined.

(** C6 (amended): from a start where [success] is [false], [event] is not
    signaled and no earlier connection is pending, every interleaving of
    [Connect] with the I/O thread posts at most 3 connect tasks; a wait
    that finds [event] signaled ends the retries (the wait cannot time
    out), and the event is only signaled by a completed connection;
    [Connect] returns the one [success] flag shared by all attempts, which
    holds the result of the last completed connection ([false] if none
    completed before it is read), whether or not that attempt's wait timed
    out, and whatever closes happened in between; the connect task, when
    it runs on the I/O thread, is what clears the queue. *)
Theorem C6_connect_attempts_amended :
  forall c h sa ea,
    sa <> ea -> h sa = Some (CBool false) -> h ea = Some (CEvent false) ->
    (forall w, socket c = Some w -> on_connect w = None) ->
    forall tr s, run tr (connect_init c h sa ea) = Some s ->
    (posted s <= 3)%nat
    /\ (forall b, pc s = CDone b -> b = last (completions s) false)
    /\ (forall i, pc s = CWait i -> mem s ea = Some (CEvent true) ->
          step CallerTimeout s = None
          /\ option_map pc (step Caller s) = Some CReturn
          /\ completions s <> [])
    /\ (forall s', step IOTask s = Some s' -> received_queue (core s') = []).
Proof.
  intros c h sa ea Hne Hs He Hw tr s Hr.
  pose proof (connect_inv_run sa ea tr _ s (connect_inv_init c h sa ea Hne Hs He Hw) Hr)
    as (Hl & _ & _ & _ & Hpc).
  destruct s as [p c' ts m lc po cs f]. cbn in Hl, Hpc. subst lc.
  split; [| split; [| split]].
  - destruct p; cbn; lia.
  - intros b Hp. cbn in Hp. subst p. exact (proj1 (proj2 Hpc)).
  - intros i Hp Hev. cbn in Hp, Hev. subst p.
    destruct Hpc as (_ & _ & (_ & e & He' & Her) & _). cbn in He'.
    rewrite Hev in He'. injection He' as <-.
    unfold step. cbn. rewrite Hev.
    split; [reflexivity | split; [reflexivity | apply Her; reflexivity]].
  - intros s' Hst. unfold step in Hst. cbn in Hst.
    destruct ts as [| [sp ep] rest]; [discriminate |].
    injection Hst as <-. cbn. unfold ConnectOnIO. cbn.
    destruct (socket c'); [destruct (is_connected c') |]; reflexivity.
Qed.

(** The first connection succeeds after the third timeout, the socket then
    closes, the second task makes a new socket whose connection fails. *)
Definition success_close_failure : list action :=
  [IOConnectDone true; IOClose; IOTask; IOConnectDone false; Caller; Caller].

Lemma C6_connect_attempts_amended_witness :
  match run (three_timeouts ++ late_success) connect_start with
  | Some s => (posted s <= 3)%nat
              /\ (forall b, pc s = CDone b -> b = last (completions s) false)
  | None => False
  end
  /\ match run (three_timeouts ++ success_close_failure) connect_start with
     | Some s => completions s = [true; false] /\ (forall b, pc s = CDone b -> b = false)
     | None => False
     end.
Proof.
  split.
  - destruct (run (three_timeouts ++ late_success) connect_start) as [s |] eqn:E;
      [| vm_compute in E; discriminate].
    destruct (C6_connect_attempts_amended idle_core connect_frame 0%nat 1%nat
                ltac:(lia) eq_refl eq_refl
                ltac:(intros w Hw; discriminate)
                (three_timeouts ++ late_success) s E) as (H1 & H2 & _).
    split; [exact H1 | exact H2].
  - destruct (run (three_timeouts ++ success_close_failure) connect_start) as [s |] eqn:E;
      [| vm_compute in E; discriminate].
    assert (Hc : completions s = [true; false])
      by (vm_compute in E; injection E as <-; reflexivity).
    destruct (C6_connect_attempts_amended idle_core connect_frame 0%nat 1%nat
                ltac:(lia) eq_refl eq_refl
                ltac:(intros w Hw; discriminate)
                (three_timeouts ++ success_close_failure) s E) as (_ & H2 & _).
    split; [exact Hc |]. intros b Hb. rewrite (H2 b Hb), Hc. reflexivity.
Defined.

(** ** Message order *)







(** ** [Connect] on a core that is already connected *)

Definition connected_idle (s : sys) : Prop :=
  is_connected (core s) = true
  /\ exists w, socket (core s) = Some w /\ on_connect w = None.

Lemma connected_idle_step :
  forall a s s', a <> IOClose -> connected_idle s -> step a s = Some s' ->
    connected_idle s' /\ completions s' = completions s.
Proof.
  intros a [p c ts m [sa ea] po cs f] s' Ha (Hc & w & Hw & Hn) Hst.
  unfold connected_idle. cbn [core completions] in *.
  unfold step in Hst. cbn [locals] in Hst.
  destruct a as [ | | | ok | msg |].
  - destruct p as [i | i | | b]; cbn [pc mem] in Hst.
    + destruct (Nat.ltb i 3); injection Hst as <-; cbn; eauto.
    + destruct (m ea) as [[|[|]]|]; try discriminate. injection Hst as <-. cbn; eauto.
    + destruct (m sa) as [[|]|]; try discriminate. injection Hst as <-. cbn; eauto.
    + discriminate.
  - destruct p; try discriminate. cbn [mem] in Hst.
    destruct (m ea) as [[|[|]]|]; try discriminate. injection Hst as <-. cbn; eauto.
  - cbn [tasks] in Hst. destruct ts as [| [sp ep] rest]; [discriminate |].
    injection Hst as <-. cbn.
    unfold ConnectOnIO. cbn. rewrite Hw, Hc. cbn. eauto.
  - cbn [core] in Hst. rewrite Hw in Hst. destruct w as [[x |]]; cbn in Hn;
      [discriminate | discriminate].
  - cbn [core] in Hst. rewrite Hw in Hst. injection Hst as <-. cbn; eauto.
  - exfalso. exact (Ha eq_refl).
Qed.

(** The trace has no [OnClose] of the socket. *)
Definition no_close (tr : list action) : bool :=
  forallb (fun a => match a with IOClose => false | _ => true end) tr.

(** [Connect] called while the socket is already connected (and no
    connection pending), as long as the socket does not report a close
    meanwhile: every posted task takes the early return of [ConnectOnIO], so
    [event] is never signaled, no connection completes, every wait can only
    time out, and [Connect] returns [false] although the core stays
    connected. *)
Theorem Connect_when_connected_returns_false :
  forall q w h sa ea,
    sa <> ea -> h sa = Some (CBool false) -> h ea = Some (CEvent false) ->
    on_connect w = None ->
    forall tr s, no_close tr = true ->
    run tr (connect_init (mkCore q true (Some w)) h sa ea) = Some s ->
    completions s = []
    /\ is_connected (core s) = true
    /\ (forall i, pc s = CWait i -> mem s ea = Some (CEvent false))
    /\ (forall b, pc s = CDone b -> b = false).
Proof.
  intros q w h sa ea Hne Hs He Hw tr.
  assert (G : forall s0 s, no_close tr = true -> connected_idle s0 -> completions s0 = [] ->
                run tr s0 = Some s -> connected_idle s /\ completions s = []).
  { induction tr as [| a tr IH]; intros s0 s Hnc Hi Hc Hr; simpl in Hr.
    - injection Hr as <-. auto.
    - unfold no_close in Hnc. cbn [forallb] in Hnc. apply andb_prop in Hnc as [Ha Hnc].
      destruct (step a s0) as [s1 |] eqn:E; [| discriminate].
      assert (Ha' : a <> IOClose) by (intros ->; discriminate Ha).
      destruct (connected_idle_step a s0 s1 Ha' Hi E) as [Hi1 Hc1].
      apply (IH s1 s Hnc Hi1); [congruence | exact Hr]. }
  intros s Hnc Hr.
  assert (Hi0 : connected_idle (connect_init (mkCore q true (Some w)) h sa ea)).
  { split; [reflexivity | exists w; split; [reflexivity | exact Hw]]. }
  assert (Hw0 : forall w', socket (mkCore q true (Some w)) = Some w' -> on_connect w' = None).
  { intros w' H. cbn in H. injection H as <-. exact Hw. }
  destruct (G _ s Hnc Hi0 eq_refl Hr) as [(Hc & _) Hcs].
  pose proof (connect_inv_run sa ea tr _ s (connect_inv_init _ h sa ea Hne Hs He Hw0) Hr)
    as (Hl & _ & _ & _ & Hpc).
  split; [exact Hcs | split; [exact Hc | split]].
  - intros i Hp. rewrite Hp in Hpc.
    destruct Hpc as (_ & _ & (_ & e & He' & Her) & _). rewrite Hl in He'. cbn in He'.
    destruct e; [exfalso; exact (Her eq_refl Hcs) | exact He'].
  - intros b Hp. rewrite Hp in Hpc. destruct Hpc as (_ & Hb & _).
    rewrite Hb, Hcs. reflexivity.
Qed.

Lemma Connect_when_connected_returns_false_witness :
  match run (three_timeouts ++ [Caller; Caller])
          (connect_init (mkCore [] true (Some (mkWebSocket None))) connect_frame 0%nat 1%nat)
  with
  | Some s => completions s = [] /\ (forall b, pc s = CDone b -> b = false)
  | None => False
  end.
Proof.
  destruct (run (three_timeouts ++ [Caller; Caller])
              (connect_init (mkCore [] true (Some (mkWebSocket None))) connect_frame 0%nat 1%nat))
    as [s |] eqn:E; [| vm_compute in E; discriminate].
  destruct (Connect_when_connected_returns_false [] (mkWebSocket None) connect_frame 0%nat 1%nat
              ltac:(lia) eq_refl eq_refl eq_refl (three_timeouts ++ [Caller; Caller]) s
              eq_refl E) as (H1 & _ & _ & H4).
  split; [exact H1 | exact H4].
Defined.

(** *** [Send] *)

(** [Send] checks neither [socket_] nor [is_connected_]: on a core whose
    [Connect] never ran its [ConnectOnIO] (the constructed core) [SendOnIO]
    calls [Send] on a null socket; once a [ConnectOnIO] has run, the call
    returns the socket's [Send] result, whether the connection is up, failed
    or closed. *)
Theorem Send_socket_unchecked :
  forall ws_send message sa ea h,
    sa <> ea ->
    Send ws_send message sa ea Core_init h = None
    /\ (forall s e c, exists w,
          socket (ConnectOnIO s e c) = Some w
          /\ forall b, Send ws_send message sa ea (set_connected b (ConnectOnIO s e c)) h
                       = Some (Done (ws_send w message))).
Proof.
  intros ws_send message sa ea h Hne. split; [reflexivity |].
  intros s e c.
  destruct (socket (ConnectOnIO s e c)) as [w |] eqn:Hw;
    [| exfalso; revert Hw; unfold ConnectOnIO, set_socket, set_queue; cbn [socket];
       destruct (socket c); [destruct (is_connected c) |]; discriminate].
  exists w. split; [reflexivity |]. intros b.
  unfold Send, SendOnIO, set_connected. cbn [socket]. rewrite Hw.
  unfold store_bool. rewrite heap_upd_neq by exact Hne. rewrite heap_upd_eq.
  unfold Signal. rewrite heap_upd_neq by (intros E; apply Hne; symmetry; exact E).
  rewrite heap_upd_eq.
  rewrite heap_upd_neq by exact Hne. rewrite heap_upd_eq. reflexivity.
Qed.

Lemma Send_socket_unchecked_witness :
  Send (fun _ _ => true) "x" 0%nat 1%nat Core_init (fun _ => None) = None.
Proof.
  exact (proj1 (Send_socket_unchecked (fun _ _ => true) "x" 0%nat 1%nat (fun _ => None)
                  ltac:(discriminate))).
Defined.

(** *** A queued message beats the timeout *)

(** While connected, a queued message is returned at once: the front of
    the queue is popped with [kOk] even when the budget is already spent and
    no wake happens. *)
Theorem ReceiveNextMessage_queued_ignores_timeout :
  forall t ws now message m q w,
    ReceiveNextMessage t ws now message (mkCore (m :: q) true w)
    = Some (kOk, m, mkCore q true w).
Proof. intros [d] [| x ws] now message m q w; reflexivity. Qed.

End SyncWebSocketFacts.
